(** * Static Data API ([src/lib/staticData.ts]): caches, listing, search, loaders

    A shallow embedding of the data-access layer of the video catalogue:
    the bounded fetch cache ([cache], [cacheSet], [fetchJson]), the Site
    Index memo ([getIndex]), the listing and detail queries ([getVideos],
    [getVideo]), the search aggregator ([getSearchEntries], [search]) and the
    composite loaders ([loadStudyHome], [loadVideoPage]).

    Conventions of the embedding.
    - A JavaScript string is the list of its UTF-16 code units.
    - A JavaScript number that the module computes with (page, page size,
      counts, indices) is an integer of [Z]; the one quotient the module
      takes, [Math.ceil(total / pageSize)], has its non-finite results
      spelled out ([number]).
    - The three module-level variables ([cache], [indexCache],
      [searchCache]) are the fields of an explicit [State], threaded
      through a state-and-exception monad; a thrown error keeps the state
      reached so far, as in JavaScript.
    - Every call of the host's [fetch] is recorded in the ghost field
      [requests], so that "no fetch happens" is a statement about the state.
    - The calls of the exported functions follow one another; inside a
      call, the two branches of a [Promise.all] are in flight together
      and settle in either order. *)

From Stdlib Require Import String Ascii DecimalString.
From Stdlib Require DecimalPos DecimalZ.
From Stdlib Require Import List ZArith NArith Bool Lia.
Import ListNotations.

(* ================================================================== *)
(** * JavaScript strings and the built-ins the module calls            *)
(* ================================================================== *)

Module JS.

(** A string value: its sequence of UTF-16 code units. *)
Definition jsstring := list N.

(** An ASCII literal of the source text. *)
Definition lit (s : string) : jsstring :=
  map N_of_ascii (list_ascii_of_string s).

Fixpoint str_eqb (a b : jsstring) : bool :=
  match a, b with
  | [], [] => true
  | x :: a', y :: b' => N.eqb x y && str_eqb a' b'
  | _, _ => false
  end.

(** [ToBoolean] of a string: the empty string is the only falsy one. *)
Definition truthy (s : jsstring) : bool :=
  match s with [] => false | _ :: _ => true end.

(** [ToBoolean] of an optional string property or argument: [undefined],
    [null] and the empty string are falsy. *)
Definition truthy_opt (o : option jsstring) : bool :=
  match o with Some s => truthy s | None => false end.

(** [a || b] on an optional string with a string default. *)
Definition or_else (o : option jsstring) (d : jsstring) : jsstring :=
  match o with
  | Some (c :: s) => c :: s
  | _ => d
  end.

(** [Number.prototype.toString] at an integer: decimal digits, with a
    leading minus sign below zero. *)
Definition Number_toString (z : Z) : jsstring :=
  lit (NilZero.string_of_int (Z.to_int z)).

(** ** [String.prototype.trim] *)

(** WhiteSpace and LineTerminator code points of ECMAScript. *)
Definition isWhiteSpace (c : N) : bool :=
  ((9 <=? c) && (c <=? 13) || (c =? 32) || (c =? 160) || (c =? 5760)
   || (8192 <=? c) && (c <=? 8202) || (c =? 8232) || (c =? 8233)
   || (c =? 8239) || (c =? 8287) || (c =? 12288) || (c =? 65279))%N.

Fixpoint trimStart (s : jsstring) : jsstring :=
  match s with
  | [] => []
  | c :: r => if isWhiteSpace c then trimStart r else s
  end.

Definition trimEnd (s : jsstring) : jsstring := rev (trimStart (rev s)).

Definition trim (s : jsstring) : jsstring := trimEnd (trimStart s).

(** ** [String.prototype.includes] *)

Fixpoint startsWith (s p : jsstring) {struct p} : bool :=
  match p, s with
  | [], _ => true
  | x :: p', y :: s' => N.eqb x y && startsWith s' p'
  | _ :: _, [] => false
  end.

Fixpoint includes (s p : jsstring) : bool :=
  startsWith s p ||
  match s with
  | [] => false
  | _ :: s' => includes s' p
  end.

(** ** [encodeURIComponent] *)

Definition isLeadSurrogate (c : N) : bool := ((55296 <=? c) && (c <=? 56319))%N.
Definition isTrailSurrogate (c : N) : bool := ((56320 <=? c) && (c <=? 57343))%N.

(** The characters [encodeURIComponent] leaves alone: ASCII letters and
    digits and the marks [- _ . ! ~ * ' ( )]. *)
Definition uriUnreserved (c : N) : bool :=
  ((65 <=? c) && (c <=? 90) || (97 <=? c) && (c <=? 122)
   || (48 <=? c) && (c <=? 57)
   || (c =? 45) || (c =? 95) || (c =? 46) || (c =? 33) || (c =? 126)
   || (c =? 42) || (c =? 39) || (c =? 40) || (c =? 41))%N.

Definition hexDigit (n : N) : N :=
  (if n <? 10 then 48 + n else 55 + n)%N.

(** One octet as [%XX] with upper-case hexadecimal digits. *)
Definition percentOctet (o : N) : jsstring :=
  [37%N; hexDigit (o / 16 mod 16); hexDigit (o mod 16)].

(** The UTF-8 octets of a code point. *)
Definition utf8 (cp : N) : list N :=
  (if cp <? 128 then [cp]
   else if cp <? 2048 then [192 + cp / 64; 128 + cp mod 64]
   else if cp <? 65536 then
     [224 + cp / 4096; 128 + cp / 64 mod 64; 128 + cp mod 64]
   else
     [240 + cp / 262144 mod 8; 128 + cp / 4096 mod 64;
      128 + cp / 64 mod 64; 128 + cp mod 64])%N.

Definition percentEncode (cp : N) : jsstring :=
  flat_map percentOctet (utf8 cp).

Definition surrogatePair (hi lo : N) : N :=
  ((hi - 55296) * 1024 + (lo - 56320) + 65536)%N.

(** [None] stands for the [URIError] raised at an unpaired surrogate. *)
Fixpoint encodeURIComponent (s : jsstring) : option jsstring :=
  match s with
  | [] => Some []
  | c :: rest =>
      if uriUnreserved c then option_map (cons c) (encodeURIComponent rest)
      else if isLeadSurrogate c then
        match rest with
        | d :: rest' =>
            if isTrailSurrogate d
            then option_map (app (percentEncode (surrogatePair c d)))
                            (encodeURIComponent rest')
            else None
        | [] => None
        end
      else if isTrailSurrogate c then None
      else option_map (app (percentEncode c)) (encodeURIComponent rest)
  end.

(** [String.prototype.isWellFormed]: no unpaired surrogate. *)
Fixpoint isWellFormed (s : jsstring) : bool :=
  match s with
  | [] => true
  | c :: rest =>
      if isLeadSurrogate c then
        match rest with
        | d :: rest' => isTrailSurrogate d && isWellFormed rest'
        | [] => false
        end
      else negb (isTrailSurrogate c) && isWellFormed rest
  end.

(** ** [Array.prototype.slice] with its relative (negative) indices *)

Definition slice {A : Type} (l : list A) (start finish : Z) : list A :=
  let len := Z.of_nat (length l) in
  let k := if (start <? 0)%Z then Z.max (len + start) 0 else Z.min start len in
  let final :=
    if (finish <? 0)%Z then Z.max (len + finish) 0 else Z.min finish len in
  firstn (Z.to_nat (final - k)) (skipn (Z.to_nat k) l).

(** ** Numbers that may leave the integers *)

Inductive number : Type :=
| Num (z : Z)
| Infinity
| NaN.

(** [Math.ceil(a / b)] for integers [a >= 0] and [b]. *)
Definition Math_ceil_div (a b : Z) : number :=
  if (b =? 0)%Z then (if (a =? 0)%Z then NaN else Infinity)
  else Num (- ((- a) / b))%Z.

End JS.
Import JS.

(* ================================================================== *)
(** * Data model (the interfaces of the source)                        *)
(* ================================================================== *)

(** [Video]: the lightweight summary of a video. *)
Record Video : Type := mkVideo {
  v_id : jsstring;
  v_title : jsstring;
  v_publishedAt : jsstring;
  v_duration : jsstring;
  v_thumbnail : jsstring;
  v_viewCount : jsstring;
  v_playlistId : option jsstring;
  v_playlistName : option jsstring;
  v_category : option jsstring
}.

(** The navigation block of a video detail. *)
Record Nav : Type := mkNav {
  nav_prev : option jsstring;
  nav_next : option jsstring;
  nav_index : Z;
  nav_total : Z
}.

(** [VideoDetails extends Video]. *)
Record VideoDetails : Type := mkVideoDetails {
  d_id : jsstring;
  d_title : jsstring;
  d_publishedAt : jsstring;
  d_duration : jsstring;
  d_thumbnail : jsstring;
  d_viewCount : jsstring;
  d_playlistId : option jsstring;
  d_playlistName : option jsstring;
  d_category : option jsstring;
  description : jsstring;
  likeCount : option jsstring;
  commentCount : option jsstring;
  tags : option (list jsstring);
  nav : Nav
}.

Record Playlist : Type := mkPlaylist {
  pl_id : jsstring;
  pl_name : jsstring;
  pl_category : jsstring;
  videoCount : Z
}.

Record Stats : Type := mkStats {
  totalVideos : Z;
  totalPlaylists : Z;
  categoriesCount : Z;
  lastUpdated : jsstring
}.

Record Pagination : Type := mkPagination {
  all : Z;
  byCategory : list (jsstring * Z);
  byPlaylist : list (jsstring * Z)
}.

Record SiteIndex : Type := mkSiteIndex {
  stats : Stats;
  categories : list jsstring;
  playlists : list Playlist;
  pagination : Pagination
}.

Record VideoPage : Type := mkVideoPage {
  vp_items : list Video;
  vp_total : Z;
  vp_page : Z;
  vp_pageSize : Z;
  vp_totalPages : number
}.

(** [SearchEntry]: the abbreviated projection of a video used by search. *)
Record SearchEntry : Type := mkSearchEntry {
  e_id : jsstring;
  e_t : jsstring;             (* title *)
  e_c : option jsstring;      (* category *)
  e_p : option jsstring;      (* playlistId *)
  e_d : option jsstring;      (* duration *)
  e_th : option jsstring;     (* thumbnail *)
  e_vc : option jsstring;     (* viewCount *)
  e_pa : option jsstring;     (* publishedAt *)
  e_pn : option jsstring      (* playlistName *)
}.

(** The payload of [/search/manifest.json] and of a search chunk. *)
Record Manifest : Type := mkManifest { totalChunks : Z }.
Record Chunk : Type := mkChunk { entries : list SearchEntry }.

(** [sort?: "date" | "oldest" | "views"]. *)
Inductive Sort : Type := date | oldest | views.

Definition sortText (s : Sort) : jsstring :=
  match s with
  | date => lit "date"
  | oldest => lit "oldest"
  | views => lit "views"
  end.

(** The [options] argument of [getVideos] and [loadStudyHome]; an absent
    property is [None]. *)
Record ListingOptions : Type := mkListingOptions {
  o_page : option Z;
  o_sort : option Sort;
  o_category : option jsstring;
  o_playlistId : option jsstring
}.

(** The [options] argument of [search]. *)
Record SearchOptions : Type := mkSearchOptions {
  so_category : option jsstring;
  so_playlistId : option jsstring;
  so_page : option Z;
  so_pageSize : option Z
}.

Record VideoPageData : Type := mkVideoPageData {
  video : VideoDetails;
  prevVideo : option Video;
  nextVideo : option Video;
  playlistName : jsstring;
  playlistVideoCount : Z;
  currentIndex : Z
}.

Record StudyHomeData : Type := mkStudyHomeData {
  sh_index : SiteIndex;
  sh_videos : VideoPage
}.

(** ** JavaScript [Map]: keys in insertion order *)

Module JSMap.

Definition t (V : Type) := list (jsstring * V).

Definition size {V} (m : t V) : Z := Z.of_nat (length m).

Fixpoint get {V} (k : jsstring) (m : t V) : option V :=
  match m with
  | [] => None
  | (k', v) :: m' => if str_eqb k' k then Some v else get k m'
  end.

Definition has {V} (k : jsstring) (m : t V) : bool :=
  match get k m with Some _ => true | None => false end.

(** [set] keeps the position of a key that is present and appends a new
    one at the end. *)
Fixpoint set {V} (k : jsstring) (v : V) (m : t V) : t V :=
  match m with
  | [] => [(k, v)]
  | (k', v') :: m' =>
      if str_eqb k' k then (k', v) :: m' else (k', v') :: set k v m'
  end.

Fixpoint delete {V} (k : jsstring) (m : t V) : t V :=
  match m with
  | [] => []
  | (k', v') :: m' => if str_eqb k' k then m' else (k', v') :: delete k m'
  end.

(** [m.keys().next().value]: the first key, [undefined] on an empty map. *)
Definition firstKey {V} (m : t V) : option jsstring :=
  match m with
  | [] => None
  | (k, _) :: _ => Some k
  end.

Definition keys {V} (m : t V) : list jsstring := map fst m.

End JSMap.

(** ** What the host returns to [fetch] *)

(** A settled [Response]: [res.ok], [res.status] and the outcome of
    [res.json()] ([None] when the body is not JSON). *)
Record Response (json : Type) : Type := mkResponse {
  res_ok : bool;
  res_status : Z;
  res_json : option json
}.
Arguments mkResponse {json} _ _ _.
Arguments res_ok {json} _.
Arguments res_status {json} _.
Arguments res_json {json} _.

(** The behaviour of the host's [fetch] at a URL; [None] is a rejected
    promise (network or read failure). *)
Definition Net (json : Type) := jsstring -> option (Response json).

(** The module reads a parsed JSON value at the type its call site
    asserts ([fetchJson<T>], [as T]); TypeScript does not check the
    assertion, so each one is a total view of the value. The data files
    are taken to have the shape their type says: a payload of another
    shape, on which a later property read ([video.nav.prev],
    [entries.filter], [manifest.totalChunks]) would raise a [TypeError]
    outside any [try], is not modelled: what is proved below of [search]
    and [loadVideoPage] once a file has been read is about files of the
    declared shape. *)
Record Views (json : Type) : Type := mkViews {
  asSiteIndex : json -> SiteIndex;
  asVideoPage : json -> VideoPage;
  asVideoDetails : json -> VideoDetails;
  asManifest : json -> Manifest;
  asChunk : json -> Chunk;
  asEntries : json -> list SearchEntry
}.
Arguments mkViews {json} _ _ _ _ _ _.
Arguments asSiteIndex {json} _ _.
Arguments asVideoPage {json} _ _.
Arguments asVideoDetails {json} _ _.
Arguments asManifest {json} _ _.
Arguments asChunk {json} _ _.
Arguments asEntries {json} _ _.

(** ** Errors and the state-and-exception monad *)

Inductive error : Type :=
| Error (message : jsstring)   (* [new Error(...)] of [fetchJson] *)
| TypeError                     (* rejected [fetch], use of [undefined] *)
| SyntaxError                   (* [res.json()] on a body that is not JSON *)
| URIError.                     (* [encodeURIComponent] *)

Inductive outcome (A : Type) : Type :=
| Ok (a : A)
| Throw (e : error).
Arguments Ok {A} a.
Arguments Throw {A} e.

Definition MAX_CACHE_SIZE : Z := 100.

(* ================================================================== *)
(** * A concrete host, for running the module on examples             *)
(* ================================================================== *)

Module Sample.

(** JSON files of the site, by schema. *)
Inductive payload : Type :=
| PIndex (i : SiteIndex)
| PPage (p : VideoPage)
| PDetails (v : VideoDetails)
| PManifest (m : Manifest)
| PChunk (c : Chunk)
| PEntries (es : list SearchEntry).

Definition noIndex : SiteIndex :=
  mkSiteIndex (mkStats 0 0 0 []) [] [] (mkPagination 0 [] []).

Definition noDetails : VideoDetails :=
  mkVideoDetails [] [] [] [] [] [] None None None [] None None None
                 (mkNav None None 0 0).

(** The views of a payload; a file of another schema reads as an empty
    value. *)
Definition payloadViews : Views payload :=
  mkViews
    (fun j => match j with PIndex i => i | _ => noIndex end)
    (fun j => match j with PPage p => p | _ => mkVideoPage [] 0 0 0 (Num 0) end)
    (fun j => match j with PDetails v => v | _ => noDetails end)
    (fun j => match j with PManifest m => m | _ => mkManifest 0 end)
    (fun j => match j with PChunk c => c | _ => mkChunk [] end)
    (fun j => match j with PEntries es => es | _ => [] end).

(** Lower-casing of the ASCII letters. *)
Definition lower (s : jsstring) : jsstring :=
  map (fun ch => if ((65 <=? ch) && (ch <=? 90))%N then (ch + 32)%N else ch) s.

Definition entry (id title : string) : SearchEntry :=
  mkSearchEntry (lit id) (lit title) None None None None None None None.

Definition detail (id : jsstring) (name : option jsstring)
    (prev next : option jsstring) (index total : Z) : VideoDetails :=
  mkVideoDetails id (lit "A lesson") (lit "2024-01-01") (lit "PT10M")
                 (lit "thumb.jpg") (lit "7") None name None
                 (lit "text") None None None (mkNav prev next index total).

Definition okResponse (j : payload) : option (Response payload) :=
  Some (mkResponse true 200 (Some j)).

Definition notFound : option (Response payload) :=
  Some (mkResponse false 404 None).

Definition index : SiteIndex :=
  mkSiteIndex (mkStats 3 1 1 (lit "2024-01-01")) [lit "fiqh"]
              [mkPlaylist (lit "PL1") (lit "Lessons") (lit "fiqh") 3]
              (mkPagination 1 [(lit "fiqh", 1%Z)] [(lit "PL1", 1%Z)]).

(** A browser-side site: the index, a search manifest of two chunks, and
    a detail file for every video id (video [b] sits between [a] and
    [c]); no listing fragment and no scoped search file exists. *)
Definition site : Net payload :=
  fun url =>
    if str_eqb url (lit "/data/index.json") then okResponse (PIndex index)
    else if str_eqb url (lit "/data/search/manifest.json")
    then okResponse (PManifest (mkManifest 2))
    else if str_eqb url (lit "/data/search/chunk-1.json")
    then okResponse (PChunk (mkChunk [entry "v1" "Tafsir Al-Baqarah";
                                      entry "v2" "Intro"]))
    else if str_eqb url (lit "/data/search/chunk-2.json")
    then okResponse (PChunk (mkChunk [entry "v3" "Tafsir An-Nisa"]))
    else if str_eqb url (lit "/data/video/b.json")
    then okResponse (PDetails (detail (lit "b") None (Some (lit "a"))
                                      (Some (lit "c")) 1 3))
    else if str_eqb url (lit "/data/video/a.json")
    then okResponse (PDetails (detail (lit "a") (Some (lit "Lessons")) None
                                      (Some (lit "b")) 0 3))
    else if str_eqb url (lit "/data/video/missing.json") then notFound
    else if startsWith url (lit "/data/video/")
    then okResponse (PDetails (detail (lit "x") None None None 0 1))
    else notFound.

(** A site where nothing can be fetched. *)
Definition offline : Net payload := fun _ => None.

(** The ids [1], [2], ..., [n] as strings. *)
Definition ids (n : nat) : list jsstring :=
  map (fun k => Number_toString (Z.of_nat k)) (seq 1 n).

(** A page of two videos. *)
Definition firstPage : VideoPage :=
  mkVideoPage
    [mkVideo (lit "v1") (lit "Tafsir Al-Baqarah") (lit "2024-01-01")
             (lit "PT10M") (lit "thumb.jpg") (lit "7") None None None;
     mkVideo (lit "v2") (lit "Intro") (lit "2024-01-02")
             (lit "PT5M") (lit "thumb.jpg") (lit "3") None None None]
    2 1 24 (Num 1).

(** A site that serves only the first page of the newest videos. *)
Definition listed : Net payload :=
  fun url =>
    if str_eqb url (lit "/data/videos/date/page-1.json")
    then okResponse (PPage firstPage)
    else notFound.

(** A site where the video [t] has the video [u] both before and after
    it. *)
Definition twin : Net payload :=
  fun url =>
    if str_eqb url (lit "/data/video/t.json")
    then okResponse (PDetails (detail (lit "t") None (Some (lit "u"))
                                      (Some (lit "u")) 0 2))
    else if startsWith url (lit "/data/video/")
    then okResponse (PDetails (detail (lit "u") None None None 1 2))
    else notFound.

(** The search entries of the category "fiqh". *)
Definition fiqhEntries : list SearchEntry :=
  [entry "f1" "Fiqh 1"; entry "f2" "Usul"; entry "f3" "Fiqh 2";
   entry "f4" "Fiqh 3"].

(** A site that serves only the search file of the category "fiqh". *)
Definition scoped : Net payload :=
  fun url =>
    if str_eqb url (lit "/data/search/category/fiqh.json")
    then okResponse (PEntries fiqhEntries)
    else notFound.

End Sample.

(* ================================================================== *)
(** * The prerender filter of [vite.config.ts]                         *)
(* ================================================================== *)

Module ViteConfig.

(** [const basePath = '/Dr-Yosry-Gabr-WebApp/']. *)
Definition basePath : jsstring := lit "/Dr-Yosry-Gabr-WebApp/".

(** [s.slice(start)]: [slice] with the end left out. *)
Definition sliceFrom (s : jsstring) (start : Z) : jsstring :=
  slice s start (Z.of_nat (length s)).

(** [path] without the base path, if it has it. *)
Definition cleanPath (path : jsstring) : jsstring :=
  if startsWith path basePath
  then lit "/" ++ sliceFrom path (Z.of_nat (length basePath))
  else path.

(** [prerender.filter]: whether the page at [path] is prerendered. *)
Definition filter (path : jsstring) : bool :=
  if includes path (lit "#") then false
  else
    let cleanPath := cleanPath path in
    if startsWith cleanPath (lit "/study") then false
    else if startsWith cleanPath (lit "/dashboard") then false
    else true.

End ViteConfig.

(* ================================================================== *)
(** * The module                                                       *)
(* ================================================================== *)

Section StaticData.

(** The JSON values of the host and the views the call sites take of
    them. *)
Variable json : Type.
Variable V : Views json.

(** [typeof window === "undefined"] and [process.cwd()]. *)
Variable isServer : bool.
Variable cwd : jsstring.

(** [String.prototype.toLowerCase]. *)
Variable toLowerCase : jsstring -> jsstring.

(** The module-level variables, and the log of the calls of [fetch]. *)
Record State : Type := mkState {
  cache : JSMap.t json;
  indexCache : option SiteIndex;
  searchCache : JSMap.t (list SearchEntry);
  requests : list jsstring
}.

(** The state when the module has just been loaded. *)
Definition initial : State := mkState [] None [] [].

Definition M (A : Type) : Type := State -> outcome A * State.

Definition ret {A} (a : A) : M A := fun st => (Ok a, st).

Definition bind {A B} (m : M A) (k : A -> M B) : M B :=
  fun st =>
    match m st with
    | (Ok a, st') => k a st'
    | (Throw e, st') => (Throw e, st')
    end.

Definition throw {A} (e : error) : M A := fun st => (Throw e, st).

(** [try { m } catch { h }]. *)
Definition try_catch {A} (m h : M A) : M A :=
  fun st =>
    match m st with
    | (Ok a, st') => (Ok a, st')
    | (Throw _, st') => h st'
    end.

(** Runs [m] and hands back how it ended, as a promise does to whoever
    joins on it. *)
Definition attempt {A} (m : M A) : M (outcome A) :=
  fun st => let (r, st') := m st in (Ok r, st').

Definition gets {A} (f : State -> A) : M A := fun st => (Ok (f st), st).

Definition modify (f : State -> State) : M unit := fun st => (Ok tt, f st).

Notation "x <- m ;; k" := (bind m (fun x => k))
  (at level 61, m at next level, right associativity).
Notation "m ;;; k" := (bind m (fun _ => k))
  (at level 61, right associativity).

Definition with_cache (f : JSMap.t json -> JSMap.t json) (st : State) : State :=
  mkState (f (cache st)) (indexCache st) (searchCache st) (requests st).

Definition with_indexCache (i : option SiteIndex) (st : State) : State :=
  mkState (cache st) i (searchCache st) (requests st).

Definition with_searchCache
    (f : JSMap.t (list SearchEntry) -> JSMap.t (list SearchEntry))
    (st : State) : State :=
  mkState (cache st) (indexCache st) (f (searchCache st)) (requests st).

Definition with_request (url : jsstring) (st : State) : State :=
  mkState (cache st) (indexCache st) (searchCache st) (requests st ++ [url]).

(** ** Fetch helpers *)

(** [cacheSet(key, value)] on the [cache] map. *)
Definition cacheSet (key : jsstring) (value : json) (cache : JSMap.t json)
  : JSMap.t json :=
  let cache1 :=
    if (MAX_CACHE_SIZE <=? JSMap.size cache)%Z then
      match JSMap.firstKey cache with
      | Some firstKey =>
          if truthy firstKey then JSMap.delete firstKey cache else cache
      | None => cache
      end
    else cache in
  JSMap.set key value cache1.

(** The URL handed to [fetch]: a [file://] URL under the public directory
    when prerendering, a path under [/data] in the browser. *)
Definition resourceURL (path : jsstring) : jsstring :=
  if isServer then lit "file://" ++ cwd ++ lit "/public/data" ++ path
  else lit "/data" ++ path.

(** [fetch(url)]: the request is issued (and logged); the value is what
    the promise will settle to. *)
Definition fetch (net : Net json) (url : jsstring)
  : M (option (Response json)) :=
  fun st => (Ok (net url), with_request url st).

Definition failedToFetch (path : jsstring) (status : Z) : jsstring :=
  lit "Failed to fetch " ++ path ++ lit ": " ++ Number_toString status.

(** What [fetchJson] does once [fetch] has settled: the [res.ok] test,
    [res.json()], [cacheSet]. The two branches of the source (server and
    client) differ only in the URL. *)
Definition settle (path : jsstring) (r : option (Response json)) : M json :=
  match r with
  | None => throw TypeError
  | Some res =>
      if negb (res_ok res) then
        throw (Error (failedToFetch path (res_status res)))
      else
        match res_json res with
        | None => throw SyntaxError
        | Some data =>
            modify (with_cache (cacheSet path data)) ;;; ret data
        end
  end.

Definition fetchJson (net : Net json) (path : jsstring) : M json :=
  hit <- gets (fun st => JSMap.get path (cache st)) ;;
  match hit with
  | Some value => ret value
  | None =>
      r <- fetch net (resourceURL path) ;;
      settle path r
  end.

(** The part of [fetchJson] that runs before its first [await], and the
    part that runs after it; needed where two calls are in flight at once
    ([Promise.all]). *)
Inductive pending : Type :=
| Cached (value : json)
| InFlight (r : option (Response json)).

Definition fetchJson_begin (net : Net json) (path : jsstring) : M pending :=
  hit <- gets (fun st => JSMap.get path (cache st)) ;;
  match hit with
  | Some value => ret (Cached value)
  | None => r <- fetch net (resourceURL path) ;; ret (InFlight r)
  end.

Definition fetchJson_end (path : jsstring) (w : pending) : M json :=
  match w with
  | Cached value => ret value
  | InFlight r => settle path r
  end.

(** What the network serves at a resource path: the parsed body of an
    [ok] response, if that is what [fetch] settles to. *)
Definition served (net : Net json) (path : jsstring) : option json :=
  match net (resourceURL path) with
  | Some res => if res_ok res then res_json res else None
  | None => None
  end.

(** ** Public API *)

Definition indexPath : jsstring := lit "/index.json".

Definition getIndex (net : Net json) : M SiteIndex :=
  ic <- gets indexCache ;;
  match ic with
  | Some i => ret i
  | None =>
      data <- fetchJson net indexPath ;;
      modify (with_indexCache (Some (asSiteIndex V data))) ;;;
      ret (asSiteIndex V data)
  end.

(** [category && category !== "all" && category !== "channel"]: the
    category that filters, if any. *)
Definition categoryFilter (category : option jsstring) : option jsstring :=
  match category with
  | Some cat =>
      if truthy cat && negb (str_eqb cat (lit "all"))
                    && negb (str_eqb cat (lit "channel"))
      then Some cat else None
  | None => None
  end.

(** The [path] of [getVideos]; [encodeURIComponent] may raise. *)
Definition listingPath (page : Z) (sort : Sort)
    (category playlistId : option jsstring) : outcome jsstring :=
  match playlistId with
  | Some (ch :: s) =>
      Ok (lit "/playlists/" ++ (ch :: s) ++ lit "/" ++ sortText sort
            ++ lit "/page-" ++ Number_toString page ++ lit ".json")
  | _ =>
      match categoryFilter category with
      | Some cat =>
          match encodeURIComponent cat with
          | Some enc =>
              Ok (lit "/categories/" ++ enc ++ lit "/" ++ sortText sort
                    ++ lit "/page-" ++ Number_toString page ++ lit ".json")
          | None => Throw URIError
          end
      | None =>
          Ok (lit "/videos/" ++ sortText sort ++ lit "/page-"
                ++ Number_toString page ++ lit ".json")
      end
  end.

Definition optPage (o : option Z) : Z :=
  match o with Some n => n | None => 1%Z end.

Definition optSort (o : option Sort) : Sort :=
  match o with Some s => s | None => date end.

Definition emptyListing (page : Z) : VideoPage :=
  mkVideoPage [] 0 page 24 (Num 0).

Definition getVideos (net : Net json) (options : ListingOptions)
  : M VideoPage :=
  let page := optPage (o_page options) in
  let sort := optSort (o_sort options) in
  match listingPath page sort (o_category options) (o_playlistId options) with
  | Throw e => throw e
  | Ok path =>
      try_catch (data <- fetchJson net path ;; ret (asVideoPage V data))
                (ret (emptyListing page))
  end.

Definition videoPath (id : jsstring) : jsstring :=
  lit "/video/" ++ id ++ lit ".json".

Definition getVideo (net : Net json) (id : jsstring)
  : M (option VideoDetails) :=
  try_catch (data <- fetchJson net (videoPath id) ;;
             ret (Some (asVideoDetails V data)))
            (ret None).

(** ** Search *)

Definition manifestPath : jsstring := lit "/search/manifest.json".

Definition chunkPath (i : Z) : jsstring :=
  lit "/search/chunk-" ++ Number_toString i ++ lit ".json".

Definition allKey : jsstring := lit "__all__".

(** [for (let i = ...; i <= totalChunks; i++)] with [n] turns left. *)
Fixpoint chunkLoop (net : Net json) (n : nat) (i : Z)
    (acc : list SearchEntry) : M (list SearchEntry) :=
  match n with
  | O => ret acc
  | S n' =>
      data <- fetchJson net (chunkPath i) ;;
      chunkLoop net n' (i + 1)%Z (acc ++ entries (asChunk V data))
  end.

(** [searchCache.get(key)!]: an absent key would give [undefined], on
    which the caller's [entries.filter] raises a [TypeError]. *)
Definition cachedEntries (key : jsstring) : M (list SearchEntry) :=
  found <- gets (fun st => JSMap.get key (searchCache st)) ;;
  match found with
  | Some es => ret es
  | None => throw TypeError
  end.

(** The global branch of [getSearchEntries]. *)
Definition getAllEntries (net : Net json) : M (list SearchEntry) :=
  data <- fetchJson net manifestPath ;;
  let manifest := asManifest V data in
  let key := allKey in
  known <- gets (fun st => JSMap.has key (searchCache st)) ;;
  (if negb known then
     es <- chunkLoop net (Z.to_nat (totalChunks manifest)) 1%Z [] ;;
     modify (with_searchCache (JSMap.set key es))
   else ret tt) ;;;
  cachedEntries key.

(** The tail of [getSearchEntries]: one file for a category or playlist.
    The [try] block either falls through ([None]) or returns early from
    its [catch] ([Some []]). *)
Definition getScopeEntries (net : Net json) (path : jsstring)
  : M (list SearchEntry) :=
  known <- gets (fun st => JSMap.has path (searchCache st)) ;;
  early <- (if negb known then
              try_catch
                (data <- fetchJson net path ;;
                 modify (with_searchCache (JSMap.set path (asEntries V data))) ;;;
                 ret None)
                (ret (Some []))
            else ret None) ;;
  match early with
  | Some es => ret es
  | None => cachedEntries path
  end.

(** The [path] of a category or playlist scope; [Ok None] is the global
    scope. *)
Definition scopePath (category playlistId : option jsstring)
  : outcome (option jsstring) :=
  match playlistId with
  | Some (ch :: s) => Ok (Some (lit "/search/playlist/" ++ (ch :: s) ++ lit ".json"))
  | _ =>
      match categoryFilter category with
      | Some cat =>
          match encodeURIComponent cat with
          | Some enc => Ok (Some (lit "/search/category/" ++ enc ++ lit ".json"))
          | None => Throw URIError
          end
      | None => Ok None
      end
  end.

Definition getSearchEntries (net : Net json)
    (category playlistId : option jsstring) : M (list SearchEntry) :=
  match scopePath category playlistId with
  | Throw e => throw e
  | Ok (Some path) => getScopeEntries net path
  | Ok None => getAllEntries net
  end.

Definition optPageSize (o : option Z) : Z :=
  match o with Some n => n | None => 24%Z end.

(** The [Video] built from a search entry. *)
Definition entryVideo (m : SearchEntry) : Video :=
  mkVideo (e_id m) (e_t m)
          (or_else (e_pa m) [])
          (or_else (e_d m) [])
          (or_else (e_th m) [])
          (or_else (e_vc m) (lit "0"))
          (e_p m) (e_pn m) (e_c m).

(** [options || {}]. *)
Definition orNoOptions (options : option SearchOptions) : SearchOptions :=
  match options with
  | Some o => o
  | None => mkSearchOptions None None None None
  end.

Definition titleMatches (q : jsstring) (e : SearchEntry) : bool :=
  includes (toLowerCase (e_t e)) q.

Definition search (net : Net json) (query : jsstring)
    (options : option SearchOptions) : M VideoPage :=
  let o := orNoOptions options in
  let page := optPage (so_page o) in
  let pageSize := optPageSize (so_pageSize o) in
  if negb (truthy (trim query)) then
    ret (mkVideoPage [] 0 page pageSize (Num 0))
  else
    es <- getSearchEntries net (so_category o) (so_playlistId o) ;;
    let q := toLowerCase query in
    let matches := filter (titleMatches q) es in
    let total := Z.of_nat (length matches) in
    let totalPages := Math_ceil_div total pageSize in
    let start := ((page - 1) * pageSize)%Z in
    let pageMatches := slice matches start (start + pageSize)%Z in
    let items := map entryVideo pageMatches in
    ret (mkVideoPage items total page pageSize totalPages).

(** ** Composite loaders *)

(** [Promise.all([a, b])] of two async calls: both run up to their first
    [await] in array order, then each finishes when its fetch settles;
    [aFirst] tells which one settles first. A branch that has rejected
    does not stop the other one; the join rejects with the rejection that
    came first. *)
Definition Promise_all2 {PA PB A B : Type}
    (beginA : M PA) (endA : PA -> M A)
    (beginB : M PB) (endB : PB -> M B)
    (aFirst : bool) : M (A * B) :=
  ra <- attempt beginA ;;
  rb <- attempt beginB ;;
  match ra, rb with
  | Throw e, Throw _ => throw e
  | Throw e, Ok wb => attempt (endB wb) ;;; throw e
  | Ok wa, Throw e => attempt (endA wa) ;;; throw e
  | Ok wa, Ok wb =>
      if aFirst then
        oa <- attempt (endA wa) ;;
        ob <- attempt (endB wb) ;;
        match oa, ob with
        | Ok a, Ok b => ret (a, b)
        | Throw e, _ => throw e
        | Ok _, Throw e => throw e
        end
      else
        ob <- attempt (endB wb) ;;
        oa <- attempt (endA wa) ;;
        match ob, oa with
        | Ok b, Ok a => ret (a, b)
        | Throw e, _ => throw e
        | Ok _, Throw e => throw e
        end
  end.

(** [getIndex] before and after its [await]. *)
Definition getIndex_begin (net : Net json) : M (SiteIndex + pending) :=
  ic <- gets indexCache ;;
  match ic with
  | Some i => ret (inl i)
  | None => w <- fetchJson_begin net indexPath ;; ret (inr w)
  end.

Definition getIndex_end (w : SiteIndex + pending) : M SiteIndex :=
  match w with
  | inl i => ret i
  | inr w' =>
      data <- fetchJson_end indexPath w' ;;
      modify (with_indexCache (Some (asSiteIndex V data))) ;;;
      ret (asSiteIndex V data)
  end.

(** [getVideos] before and after its [await]. *)
Definition getVideos_begin (net : Net json) (options : ListingOptions)
  : M (Z * jsstring * pending) :=
  let page := optPage (o_page options) in
  let sort := optSort (o_sort options) in
  match listingPath page sort (o_category options) (o_playlistId options) with
  | Throw e => throw e
  | Ok path => w <- fetchJson_begin net path ;; ret (page, path, w)
  end.

Definition getVideos_end (w : Z * jsstring * pending) : M VideoPage :=
  let '(page, path, w') := w in
  try_catch (data <- fetchJson_end path w' ;; ret (asVideoPage V data))
            (ret (emptyListing page)).

Definition loadStudyHome (net : Net json) (options : ListingOptions)
    (indexFirst : bool) : M StudyHomeData :=
  r <- Promise_all2 (getIndex_begin net) getIndex_end
                    (getVideos_begin net options) getVideos_end
                    indexFirst ;;
  let '(index, videos) := r in
  ret (mkStudyHomeData index videos).

(** The [Video] that [loadVideoPage] copies out of a neighbour's detail. *)
Definition summaryOf (v : VideoDetails) : Video :=
  mkVideo (d_id v) (d_title v) (d_publishedAt v) (d_duration v)
          (d_thumbnail v) (d_viewCount v) (d_playlistId v)
          (d_playlistName v) (d_category v).

(** One element of the [Promise.all] of [loadVideoPage], before and after
    the [await] inside [getVideo]:
    [id ? getVideo(id).then(v => v ? {...} : null) : Promise.resolve(null)]. *)
Definition neighbour_begin (net : Net json) (id : option jsstring)
  : M (option (jsstring * pending)) :=
  match id with
  | Some (ch :: s) =>
      w <- fetchJson_begin net (videoPath (ch :: s)) ;; ret (Some (ch :: s, w))
  | _ => ret None
  end.

Definition neighbour_end (w : option (jsstring * pending))
  : M (option Video) :=
  match w with
  | None => ret None
  | Some (id, w') =>
      v <- try_catch (data <- fetchJson_end (videoPath id) w' ;;
                      ret (Some (asVideoDetails V data)))
                     (ret None) ;;
      ret (option_map summaryOf v)
  end.

(** The default playlist name, U+062F U+0631 U+0648 U+0633 U+0020
    U+0645 U+062A U+0646 U+0648 U+0639 U+0629. *)
Definition defaultPlaylistName : jsstring :=
  [1583; 1585; 1608; 1587; 32; 1605; 1578; 1606; 1608; 1593; 1577]%N.

Definition loadVideoPage (net : Net json) (videoId : jsstring)
    (prevFirst : bool) : M (option VideoPageData) :=
  found <- getVideo net videoId ;;
  match found with
  | None => ret None
  | Some video =>
      r <- Promise_all2
             (neighbour_begin net (nav_prev (nav video))) neighbour_end
             (neighbour_begin net (nav_next (nav video))) neighbour_end
             prevFirst ;;
      let '(prevVideo, nextVideo) := r in
      ret (Some (mkVideoPageData video prevVideo nextVideo
                   (or_else (d_playlistName video) defaultPlaylistName)
                   (nav_total (nav video))
                   (nav_index (nav video))))
  end.

(** ** Histories of calls *)

(** One call of an exported function, with the choice of which branch of
    a [Promise.all] settles first. *)
Inductive Call : Type :=
| CallGetIndex
| CallGetVideos (options : ListingOptions)
| CallGetVideo (id : jsstring)
| CallSearch (query : jsstring) (options : option SearchOptions)
| CallLoadStudyHome (options : ListingOptions) (indexFirst : bool)
| CallLoadVideoPage (videoId : jsstring) (prevFirst : bool).

(** The state a call leaves behind. *)
Definition perform (net : Net json) (call : Call) (st : State) : State :=
  match call with
  | CallGetIndex => snd (getIndex net st)
  | CallGetVideos o => snd (getVideos net o st)
  | CallGetVideo id => snd (getVideo net id st)
  | CallSearch q o => snd (search net q o st)
  | CallLoadStudyHome o b => snd (loadStudyHome net o b st)
  | CallLoadVideoPage id b => snd (loadVideoPage net id b st)
  end.

(** A history: each call with the behaviour of the network while it
    runs. *)
Fixpoint run (calls : list (Net json * Call)) (st : State) : State :=
  match calls with
  | [] => st
  | (net, call) :: rest => run rest (perform net call st)
  end.

(** A history against content that does not change. *)
Definition run_static (net : Net json) (calls : list Call) (st : State)
  : State :=
  run (map (pair net) calls) st.


(** ** Derived notions used to state the properties *)

(** One neighbour of [loadVideoPage] resolved on its own. *)
Definition neighbour (net : Net json) (id : option jsstring)
  : M (option Video) :=
  w <- neighbour_begin net id ;; neighbour_end w.

(** The value an element of the [Promise.all] of [loadVideoPage] settles
    to; it is fixed once the element has started. *)
Definition resolved (w : option (jsstring * pending)) : option Video :=
  match w with
  | None => None
  | Some (_, Cached value) => Some (summaryOf (asVideoDetails V value))
  | Some (_, InFlight (Some res)) =>
      if res_ok res
      then option_map (fun data => summaryOf (asVideoDetails V data))
                      (res_json res)
      else None
  | Some (_, InFlight None) => None
  end.

(** A Hoare triple on the monad: from a state satisfying [P], the outcome
    and the final state of [m] satisfy [Q]. *)
Definition triple {A} (P : State -> Prop) (m : M A)
    (Q : outcome A -> State -> Prop) : Prop :=
  forall st, P st -> Q (fst (m st)) (snd (m st)).

(** The postcondition "the invariant [I] still holds, and a value that is
    returned satisfies [G]". *)
Definition yields {A} (I : State -> Prop) (G : A -> Prop)
  : outcome A -> State -> Prop :=
  fun r st => I st /\ forall a, r = Ok a -> G a.

Definition keeps {A} (I : State -> Prop) (G : A -> Prop) (m : M A) : Prop :=
  triple I m (yields I G).

Definition anything {A} : A -> Prop := fun _ => True.

(** The cache as the module maintains it: at most [MAX_CACHE_SIZE]
    entries, under distinct non-empty keys. *)
Definition cache_ok (cache : JSMap.t json) : Prop :=
  (JSMap.size cache <= MAX_CACHE_SIZE)%Z
  /\ Forall (fun k => k <> []) (JSMap.keys cache)
  /\ NoDup (JSMap.keys cache).

(** A resource path other than the index: it starts with a slash and is
    not [/index.json]. Every path the module builds outside [getIndex] is
    one. *)
Definition dataPath (path : jsstring) : Prop :=
  (exists rest, path = 47%N :: rest) /\ path <> indexPath.

(** What a call of [fetchJson] holds while its fetch is in flight, for a
    property [okData] of the payloads: a cached value that is fine, or the
    response of the network at the URL of the path. *)
Definition goodPending (net : Net json)
    (okData : jsstring -> json -> Prop) (path : jsstring) (w : pending)
  : Prop :=
  match w with
  | Cached value => okData path value
  | InFlight r => r = net (resourceURL path)
  end.

(** The entries of [n] chunks numbered from [i], each chunk a payload
    that is fine at its path. *)
Inductive chunksOk (okData : jsstring -> json -> Prop)
  : nat -> Z -> list SearchEntry -> Prop :=
| chunksOk_nil (i : Z) : chunksOk okData 0 i []
| chunksOk_cons (n : nat) (i : Z) (data : json) (es : list SearchEntry) :
    okData (chunkPath i) data ->
    chunksOk okData n (i + 1)%Z es ->
    chunksOk okData (S n) i (entries (asChunk V data) ++ es).

(** An invariant [I] can live with the fetch of [path]: with the request
    being logged and with a fine payload being stored. *)
Definition fetchable (I : State -> Prop)
    (okData : jsstring -> json -> Prop) (path : jsstring) : Prop :=
  (forall st, I st -> I (with_request (resourceURL path) st))
  /\ (forall data st, okData path data -> I st ->
                      I (with_cache (cacheSet path data) st)).

(** The index memo holds [idx], and nothing has asked for [/index.json]
    since the log read [base]. *)
Definition index_settled (idx : SiteIndex) (base : list jsstring)
    (st : State) : Prop :=
  indexCache st = Some idx
  /\ exists extra,
       requests st = base ++ extra
       /\ ~ In (resourceURL indexPath) extra.

(** The chunk numbers [i], [i + 1], ... ([k] of them), in ascending
    order; [chunkNumbers n] is 1, 2, ..., [n]. *)
Fixpoint upFrom (i : Z) (k : nat) : list Z :=
  match k with
  | O => []
  | S k' => i :: upFrom (i + 1)%Z k'
  end.

Definition chunkNumbers (n : Z) : list Z := upFrom 1%Z (Z.to_nat n).

(** The entries of the [n] chunks numbered from [i] as the network serves
    them, in ascending chunk order; [None] when a chunk is missing. *)
Fixpoint chunksFrom (net : Net json) (n : nat) (i : Z)
  : option (list SearchEntry) :=
  match n with
  | O => Some []
  | S n' =>
      match served net (chunkPath i), chunksFrom net n' (i + 1)%Z with
      | Some data, Some rest => Some (entries (asChunk V data) ++ rest)
      | _, _ => None
      end
  end.

(** The global entry list that the manifest and the chunks on the network
    define. *)
Definition manifestChunks (net : Net json) : option (list SearchEntry) :=
  match served net manifestPath with
  | Some data =>
      chunksFrom net (Z.to_nat (totalChunks (asManifest V data))) 1%Z
  | None => None
  end.

(** The caches agree with the content on the network: every cached
    payload is the one served at its path, and the global entry list, if
    loaded, is the one the manifest and the chunks define. *)
Definition coherent (net : Net json) (st : State) : Prop :=
  (forall path data, In (path, data) (cache st) ->
                     served net path = Some data)
  /\ (forall es, In (allKey, es) (searchCache st) ->
                 manifestChunks net = Some es).

(** [l1] is [l2] with some elements left out, the others in their
    order. *)
Inductive subsequence {A : Type} : list A -> list A -> Prop :=
| subsequence_nil : subsequence [] []
| subsequence_skip (x : A) (l1 l2 : list A) :
    subsequence l1 l2 -> subsequence l1 (x :: l2)
| subsequence_keep (x : A) (l1 l2 : list A) :
    subsequence l1 l2 -> subsequence (x :: l1) (x :: l2).

(** The listing path as the specification words it: [playlist/{id}/...]
    when a playlist id is given, else [category/{category}/...] with the
    category percent-encoded when a category is given, else
    [videos/{sort}/page-{n}]. *)
Definition specListingPath (page : Z) (sort : Sort)
    (category playlistId : option jsstring) : option jsstring :=
  match playlistId with
  | Some id =>
      Some (lit "playlist/" ++ id ++ lit "/" ++ sortText sort
              ++ lit "/page-" ++ Number_toString page)
  | None =>
      match category with
      | Some cat =>
          option_map
            (fun enc => lit "category/" ++ enc ++ lit "/" ++ sortText sort
                          ++ lit "/page-" ++ Number_toString page)
            (encodeURIComponent cat)
      | None =>
          Some (lit "videos/" ++ sortText sort ++ lit "/page-"
                  ++ Number_toString page)
      end
  end.

(** ** Further derived notions *)

(** What [fetchJson] holds after its synchronous part, as a function of
    the cache it finds: the cached value, or the response in flight. *)
Definition pendingOf (net : Net json) (path : jsstring) (c : JSMap.t json)
  : pending :=
  match JSMap.get path c with
  | Some value => Cached value
  | None => InFlight (net (resourceURL path))
  end.

(** How a call of [fetchJson] ends, as a function of what it holds. *)
Definition outcomeOf (path : jsstring) (w : pending) : outcome json :=
  match w with
  | Cached value => Ok value
  | InFlight None => Throw TypeError
  | InFlight (Some res) =>
      if negb (res_ok res) then
        Throw (Error (failedToFetch path (res_status res)))
      else
        match res_json res with
        | Some data => Ok data
        | None => Throw SyntaxError
        end
  end.

(** The request that resolving a neighbour id issues on a cache: none for
    a falsy id or a cached detail. *)
Definition neighbourRequest (c : JSMap.t json) (id : option jsstring)
  : list jsstring :=
  match id with
  | Some (ch :: s) =>
      if JSMap.has (videoPath (ch :: s)) c then []
      else [resourceURL (videoPath (ch :: s))]
  | _ => []
  end.

(** The items of a page that was returned, none for a thrown error. *)
Definition itemsOf (r : outcome VideoPage) : list Video :=
  match r with
  | Ok vp => vp_items vp
  | Throw _ => []
  end.

(** Every entry of the first map is still in the second one, under the
    same key. *)
Definition extends {A : Type} (m m' : JSMap.t A) : Prop :=
  forall k v, JSMap.get k m = Some v -> JSMap.get k m' = Some v.

(* ================================================================== *)
(** * Properties                                                       *)
(* ================================================================== *)

(** ** Strings *)

Lemma str_eqb_eq (a b : jsstring) : str_eqb a b = true <-> a = b.
Proof.
  revert b; induction a as [|x a IH]; intros [|y b]; simpl; split;
    try discriminate; try reflexivity.
  - intros H. apply andb_true_iff in H. destruct H as [Hx Hs].
    apply N.eqb_eq in Hx. apply IH in Hs. subst. reflexivity.
  - intros H. injection H as -> ->. rewrite N.eqb_refl. simpl.
    apply IH. reflexivity.
Qed.

Lemma str_eqb_refl (a : jsstring) : str_eqb a a = true.
Proof. apply str_eqb_eq. reflexivity. Qed.

Lemma str_eqb_neq (a b : jsstring) : str_eqb a b = false <-> a <> b.
Proof.
  split.
  - intros H E. apply str_eqb_eq in E. congruence.
  - intros H. destruct (str_eqb a b) eqn:E; [|reflexivity].
    apply str_eqb_eq in E. contradiction.
Qed.

Lemma trimStart_nil (s : jsstring) :
  trimStart s = [] <-> forallb isWhiteSpace s = true.
Proof.
  induction s as [|x s IH]; simpl.
  - split; reflexivity.
  - destruct (isWhiteSpace x); simpl; [exact IH|].
    split; discriminate.
Qed.

Lemma trimStart_blank (s : jsstring) :
  forallb isWhiteSpace (trimStart s) = forallb isWhiteSpace s.
Proof.
  induction s as [|x s IH]; simpl; [reflexivity|].
  destruct (isWhiteSpace x) eqn:E; simpl; [exact IH|].
  rewrite E. reflexivity.
Qed.

Lemma forallb_rev {A : Type} (f : A -> bool) (l : list A) :
  forallb f (rev l) = forallb f l.
Proof.
  induction l as [|x l IH]; simpl; [reflexivity|].
  rewrite forallb_app, IH. simpl. rewrite andb_true_r. apply andb_comm.
Qed.

(** [query.trim()] is empty exactly when every code unit of the query is
    white space (the empty query included). *)
Lemma trim_nil (s : jsstring) :
  trim s = [] <-> forallb isWhiteSpace s = true.
Proof.
  unfold trim, trimEnd.
  rewrite <- trimStart_blank, <- (forallb_rev _ (trimStart s)), <- trimStart_nil.
  split.
  - intros H. apply (f_equal (@rev N)) in H. rewrite rev_involutive in H.
    exact H.
  - intros ->. reflexivity.
Qed.

Lemma startsWith_spec (s q : jsstring) :
  startsWith s q = true <-> exists post, s = q ++ post.
Proof.
  revert s; induction q as [|x q IH]; intros s; simpl.
  - split; [intros _; exists s; reflexivity | reflexivity].
  - destruct s as [|y s].
    + split; [discriminate | intros [post H]; discriminate].
    + split.
      * intros H. apply andb_true_iff in H. destruct H as [Hx Hs].
        apply N.eqb_eq in Hx. apply IH in Hs. destruct Hs as [post ->].
        subst. exists post. reflexivity.
      * intros [post H]. injection H as -> ->. rewrite N.eqb_refl. simpl.
        apply IH. exists post. reflexivity.
Qed.

(** [includes] is the substring test. *)
Lemma includes_spec (s q : jsstring) :
  includes s q = true <-> exists pre post, s = pre ++ q ++ post.
Proof.
  induction s as [|y s IH].
  - simpl. rewrite orb_false_r, startsWith_spec. split.
    + intros [post H]. exists [], post. exact H.
    + intros [pre [post H]]. destruct pre; [|discriminate].
      exists post. exact H.
  - change (includes (y :: s) q)
      with (startsWith (y :: s) q || includes s q).
    rewrite orb_true_iff, startsWith_spec, IH. split.
    + intros [[post H] | [pre [post H]]].
      * exists [], post. exact H.
      * exists (y :: pre), post. rewrite H. reflexivity.
    + intros [pre [post H]]. destruct pre as [|z pre].
      * left. exists post. exact H.
      * right. injection H as -> ->. exists pre, post. reflexivity.
Qed.

Lemma unreserved_not_surrogate (ch : N) :
  uriUnreserved ch = true ->
  isLeadSurrogate ch = false /\ isTrailSurrogate ch = false.
Proof.
  unfold uriUnreserved, isLeadSurrogate, isTrailSurrogate. intros H.
  assert (ch < 128)%N as Hlt.
  { repeat (apply orb_true_iff in H; destruct H as [H|H]);
      try (apply andb_true_iff in H; destruct H as [_ H]);
      try (apply N.leb_le in H); try (apply N.eqb_eq in H); lia. }
  split; apply andb_false_iff; left; apply N.leb_gt; lia.
Qed.

Lemma encodeURIComponent_total_aux (n : nat) :
  forall s, (length s <= n)%nat -> isWellFormed s = true ->
            exists enc, encodeURIComponent s = Some enc.
Proof.
  induction n as [|n IH]; intros [|ch rest] Hlen Hwf; simpl in *;
    try (eexists; reflexivity); try lia.
  destruct (uriUnreserved ch) eqn:Hu.
  - destruct (unreserved_not_surrogate _ Hu) as [Hl Ht].
    rewrite Hl, Ht in Hwf. simpl in Hwf.
    destruct (IH rest) as [enc ->]; [lia | exact Hwf |].
    eexists; reflexivity.
  - destruct (isLeadSurrogate ch).
    + destruct rest as [|lo rest']; [discriminate|].
      apply andb_true_iff in Hwf. destruct Hwf as [-> Hwf].
      destruct (IH rest') as [enc ->]; [simpl in Hlen; lia | exact Hwf |].
      eexists; reflexivity.
    + apply andb_true_iff in Hwf. destruct Hwf as [Ht Hwf].
      apply negb_true_iff in Ht. rewrite Ht.
      destruct (IH rest) as [enc ->]; [lia | exact Hwf |].
      eexists; reflexivity.
Qed.

(** [encodeURIComponent] raises on no well-formed string. *)
Lemma encodeURIComponent_total (s : jsstring) :
  isWellFormed s = true -> exists enc, encodeURIComponent s = Some enc.
Proof. apply (encodeURIComponent_total_aux (length s)). lia. Qed.

(** ** [fetchJson] case by case *)

Lemma fetchJson_hit (net : Net json) (path : jsstring) (st : State) (v : json) :
  JSMap.get path (cache st) = Some v ->
  fetchJson net path st = (Ok v, st).
Proof. intros H. unfold fetchJson, bind, gets. rewrite H. reflexivity. Qed.

Lemma fetchJson_miss (net : Net json) (path : jsstring) (st : State) :
  JSMap.get path (cache st) = None ->
  fetchJson net path st
  = settle path (net (resourceURL path)) (with_request (resourceURL path) st).
Proof. intros H. unfold fetchJson, bind, gets. rewrite H. reflexivity. Qed.

Lemma settle_served (net : Net json) (path : jsstring) (st : State) (v : json) :
  served net path = Some v ->
  settle path (net (resourceURL path)) st
  = (Ok v, with_cache (cacheSet path v) st).
Proof.
  unfold served, settle. destruct (net (resourceURL path)) as [res|];
    [|discriminate].
  destruct (res_ok res); [|discriminate]. simpl. intros ->. reflexivity.
Qed.

Lemma settle_not_served (net : Net json) (path : jsstring) (st : State) :
  served net path = None ->
  exists e, settle path (net (resourceURL path)) st = (Throw e, st).
Proof.
  unfold served, settle. destruct (net (resourceURL path)) as [res|].
  - destruct (res_ok res); simpl.
    + intros ->. eexists; reflexivity.
    + intros _. eexists; reflexivity.
  - intros _. eexists; reflexivity.
Qed.

(** The four ways a call of [fetchJson] can go. *)
Lemma fetchJson_cases (net : Net json) (path : jsstring) (st : State) :
  (exists v, JSMap.get path (cache st) = Some v
             /\ fetchJson net path st = (Ok v, st))
  \/ (exists v, JSMap.get path (cache st) = None
                /\ served net path = Some v
                /\ fetchJson net path st
                   = (Ok v, with_cache (cacheSet path v)
                              (with_request (resourceURL path) st)))
  \/ (exists e, JSMap.get path (cache st) = None
                /\ served net path = None
                /\ fetchJson net path st
                   = (Throw e, with_request (resourceURL path) st)).
Proof.
  destruct (JSMap.get path (cache st)) as [v|] eqn:Hget.
  - left. exists v. split; [reflexivity|]. apply fetchJson_hit. exact Hget.
  - right. rewrite (fetchJson_miss net path st Hget).
    destruct (served net path) as [v|] eqn:Hs.
    + left. exists v. rewrite (settle_served net path _ v Hs). auto.
    + right. destruct (settle_not_served net path
                         (with_request (resourceURL path) st) Hs) as [e He].
      exists e. rewrite He. auto.
Qed.

(** ** Listing and search: paths, defaults, short circuits *)

Lemma categoryFilter_all : categoryFilter (Some (lit "all")) = None.
Proof. reflexivity. Qed.

Lemma categoryFilter_channel : categoryFilter (Some (lit "channel")) = None.
Proof. reflexivity. Qed.

Lemma categoryFilter_some (category : option jsstring) (cat : jsstring) :
  categoryFilter category = Some cat <->
  category = Some cat /\ cat <> [] /\ cat <> lit "all" /\ cat <> lit "channel".
Proof.
  unfold categoryFilter. destruct category as [c0|].
  - destruct (truthy c0) eqn:Ht; simpl.
    + destruct (str_eqb c0 (lit "all")) eqn:Ea; simpl.
      * apply str_eqb_eq in Ea. split; [discriminate|].
        intros (H & _ & Hn & _). injection H as ->. contradiction.
      * destruct (str_eqb c0 (lit "channel")) eqn:Ec; simpl.
        -- apply str_eqb_eq in Ec. split; [discriminate|].
           intros (H & _ & _ & Hn). injection H as ->. contradiction.
        -- apply str_eqb_neq in Ea, Ec. split.
           ++ intros H. injection H as ->. repeat split; trivial.
              intros ->. discriminate.
           ++ intros (H & _). exact H.
    + split; [discriminate|]. intros (H & Hn & _). injection H as ->.
      destruct cat; [contradiction | discriminate].
  - split; [discriminate|]. intros (H & _). discriminate.
Qed.

(** C7. [search] with an empty or white-space-only query returns the
    empty Video Page, with the requested page and page size (or their
    defaults 1 and 24) echoed back, and leaves the whole state as it was:
    the bounded fetch cache, the search-scope cache, and the log of
    fetches (no request is issued). *)
Theorem search_blank_query_short_circuits
    (net : Net json) (query : jsstring) (options : option SearchOptions)
    (st : State) :
  forallb isWhiteSpace query = true ->
  search net query options st =
    (Ok (mkVideoPage [] 0
           (optPage (so_page (orNoOptions options)))
           (optPageSize (so_pageSize (orNoOptions options)))
           (Num 0)),
     st).
Proof.
  intros Hblank. apply trim_nil in Hblank.
  unfold search. rewrite Hblank. reflexivity.
Qed.

(** C10. The category values ["all"] and ["channel"] behave as no
    category: [getVideos] and [search] run exactly as with the category
    left out, whatever the other inputs and the state; without a playlist
    id the listing path is the unfiltered [/videos/{sort}/page-{n}.json]
    and the search scope is the global one (the ["__all__"] key). *)
Theorem all_and_channel_mean_no_category
    (net : Net json) (cat : jsstring)
    (page : option Z) (sort : option Sort) (playlistId : option jsstring)
    (query : jsstring) (pageSize : option Z) (st : State) :
  cat = lit "all" \/ cat = lit "channel" ->
  getVideos net (mkListingOptions page sort (Some cat) playlistId) st
    = getVideos net (mkListingOptions page sort None playlistId) st
  /\ search net query
       (Some (mkSearchOptions (Some cat) playlistId page pageSize)) st
     = search net query
         (Some (mkSearchOptions None playlistId page pageSize)) st
  /\ (truthy_opt playlistId = false ->
      listingPath (optPage page) (optSort sort) (Some cat) playlistId
        = Ok (lit "/videos/" ++ sortText (optSort sort) ++ lit "/page-"
                ++ Number_toString (optPage page) ++ lit ".json")
      /\ scopePath (Some cat) playlistId = Ok None
      /\ getSearchEntries net (Some cat) playlistId st = getAllEntries net st).
Proof.
  intros Hcat.
  assert (categoryFilter (Some cat) = None) as Hf.
  { destruct Hcat as [-> | ->]; reflexivity. }
  assert (forall pg so,
             listingPath pg so (Some cat) playlistId
             = listingPath pg so None playlistId) as Hl.
  { intros. unfold listingPath. rewrite Hf. reflexivity. }
  assert (scopePath (Some cat) playlistId = scopePath None playlistId) as Hs.
  { unfold scopePath. rewrite Hf. reflexivity. }
  split; [|split].
  - unfold getVideos. simpl. rewrite Hl. reflexivity.
  - unfold search, getSearchEntries. simpl. rewrite Hs. reflexivity.
  - intros Hp.
    assert (scopePath (Some cat) playlistId = Ok None) as Hg.
    { rewrite Hs. unfold scopePath.
      destruct playlistId as [[|ch s]|]; try reflexivity. discriminate. }
    split; [|split].
    + rewrite Hl. unfold listingPath.
      destruct playlistId as [[|ch s]|]; try reflexivity. discriminate.
    + exact Hg.
    + unfold getSearchEntries. rewrite Hg. reflexivity.
Qed.

(** C8 (as amended). The path that [getVideos] asks [fetchJson] for is
    determined by the inputs alone, with the precedence playlist, then
    category, then all videos:
    [/playlists/{id}/{sort}/page-{n}.json] when the playlist id is
    non-empty; otherwise
    [/categories/{encodeURIComponent(category)}/{sort}/page-{n}.json] when
    the category is non-empty and is neither ["all"] nor ["channel"];
    otherwise [/videos/{sort}/page-{n}.json]. [getVideos] issues a fetch
    for exactly that resource when it is not in the cache, and none when
    it is. *)
Theorem listing_path_precedence
    (page : Z) (sort : Sort) (category playlistId : option jsstring) :
  (forall pid, playlistId = Some pid -> pid <> [] ->
     listingPath page sort category playlistId
     = Ok (lit "/playlists/" ++ pid ++ lit "/" ++ sortText sort
             ++ lit "/page-" ++ Number_toString page ++ lit ".json"))
  /\ (forall cat enc,
        truthy_opt playlistId = false ->
        category = Some cat -> cat <> [] ->
        cat <> lit "all" -> cat <> lit "channel" ->
        encodeURIComponent cat = Some enc ->
        listingPath page sort category playlistId
        = Ok (lit "/categories/" ++ enc ++ lit "/" ++ sortText sort
                ++ lit "/page-" ++ Number_toString page ++ lit ".json"))
  /\ (truthy_opt playlistId = false ->
      category = None \/ category = Some [] \/ category = Some (lit "all")
        \/ category = Some (lit "channel") ->
      listingPath page sort category playlistId
      = Ok (lit "/videos/" ++ sortText sort ++ lit "/page-"
              ++ Number_toString page ++ lit ".json"))
  /\ (forall net opage osort st path,
        page = optPage opage -> sort = optSort osort ->
        listingPath page sort category playlistId = Ok path ->
        requests (snd (getVideos net
                         (mkListingOptions opage osort category playlistId) st))
        = if JSMap.has path (cache st) then requests st
          else requests st ++ [resourceURL path]).
Proof.
  split; [|split; [|split]].
  - intros pid -> Hne. destruct pid as [|ch s]; [contradiction|]. reflexivity.
  - intros cat enc Hp -> Hne Ha Hc Henc. unfold listingPath.
    assert (categoryFilter (Some cat) = Some cat) as ->.
    { apply categoryFilter_some. auto. }
    rewrite Henc.
    destruct playlistId as [[|ch s]|]; try reflexivity. discriminate.
  - intros Hp Hcat. unfold listingPath.
    assert (categoryFilter category = None) as ->.
    { destruct Hcat as [-> | [-> | [-> | ->]]]; reflexivity. }
    destruct playlistId as [[|ch s]|]; try reflexivity. discriminate.
  - intros net opage osort st path -> -> Hpath.
    unfold getVideos. simpl. rewrite Hpath. unfold try_catch, bind, JSMap.has.
    destruct (fetchJson_cases net path st)
      as [(v & Hget & ->) | [(v & Hget & _ & ->) | (e & Hget & _ & ->)]];
      rewrite Hget; reflexivity.
Qed.

(** C6 (as amended). [getVideos] lets no failure of the fetch through,
    whatever the page, sort, category and playlist id, the state and the
    behaviour of the network: on every input on which the path can be
    built it returns a Video Page, and when the fetch of the page fragment
    fails it returns the empty page ([items = []], [total = 0],
    [totalPages = 0]) with the requested page number and the page size 24.
    The path can be built unless no playlist id is given and the category
    that filters (not empty, not ["all"], not ["channel"]) holds an
    unpaired surrogate: [encodeURIComponent] is called before the [try]
    block, and its [URIError] is the one error [getVideos] does not
    catch. *)
Theorem getVideos_degrades_on_fetch_failure
    (net : Net json) (options : ListingOptions) (st : State) :
  (truthy_opt (o_playlistId options) = false ->
   forall cat,
     categoryFilter (o_category options) = Some cat ->
     isWellFormed cat = true) ->
  exists path vp,
    listingPath (optPage (o_page options)) (optSort (o_sort options))
                (o_category options) (o_playlistId options) = Ok path
    /\ fst (getVideos net options st) = Ok vp
    /\ (forall e, fst (fetchJson net path st) = Throw e ->
        vp = mkVideoPage [] 0 (optPage (o_page options)) 24 (Num 0)).
Proof.
  intros Hwf.
  assert (exists path,
             listingPath (optPage (o_page options)) (optSort (o_sort options))
               (o_category options) (o_playlistId options) = Ok path)
    as [path Hpath].
  { unfold listingPath.
    destruct (o_playlistId options) as [[|ch s]|]; try (eexists; reflexivity);
      (destruct (categoryFilter (o_category options)) as [cat|] eqn:Hf;
       [|eexists; reflexivity];
       destruct (encodeURIComponent_total cat (Hwf eq_refl cat eq_refl))
         as [enc ->];
       eexists; reflexivity). }
  exists path. unfold getVideos. rewrite Hpath.
  unfold try_catch, bind.
  destruct (fetchJson net path st) as [[data|e] st'] eqn:Hfetch; simpl.
  - eexists. split; [reflexivity|]. split; [reflexivity|]. discriminate.
  - eexists. split; [reflexivity|]. split; [reflexivity|]. reflexivity.
Qed.

(** ** Scoped search on a failing fetch *)

Lemma slice_nil {A : Type} (start finish : Z) :
  slice (@nil A) start finish = [].
Proof. unfold slice. rewrite skipn_nil, firstn_nil. reflexivity. Qed.

Lemma has_get {A : Type} (k : jsstring) (m : JSMap.t A) :
  JSMap.has k m = false <-> JSMap.get k m = None.
Proof.
  unfold JSMap.has. destruct (JSMap.get k m); split; congruence.
Qed.

Lemma fetchJson_throws (net : Net json) (path : jsstring) (st : State)
    (e : error) :
  fst (fetchJson net path st) = Throw e ->
  JSMap.get path (cache st) = None
  /\ served net path = None
  /\ fetchJson net path st = (Throw e, with_request (resourceURL path) st).
Proof.
  intros H.
  destruct (fetchJson_cases net path st)
    as [(v & Hget & E) | [(v & Hget & Hs & E) | (e' & Hget & Hs & E)]];
    rewrite E in H; simpl in H; try discriminate.
  injection H as ->. auto.
Qed.

Lemma fetchJson_logs_miss (net : Net json) (path : jsstring) (st : State) :
  JSMap.get path (cache st) = None ->
  requests (snd (fetchJson net path st)) = requests st ++ [resourceURL path]
  /\ searchCache (snd (fetchJson net path st)) = searchCache st.
Proof.
  intros Hget.
  destruct (fetchJson_cases net path st)
    as [(v & Hget' & E) | [(v & _ & Hs & E) | (e' & _ & Hs & E)]];
    [congruence | |]; rewrite E; split; reflexivity.
Qed.

(** C4. In a category or playlist scope that is not loaded yet, when the
    fetch of the scope's entry file fails, [getSearchEntries] returns the
    empty list instead of throwing, and [search] returns an empty page;
    the bounded cache, the search-scope cache (no entry for the scope, no
    sentinel) and the index memo are unchanged, the failed request being
    the only trace; a later query in the same scope issues the fetch of
    the file again, whatever the network does then. *)
Theorem scoped_search_failure_degrades
    (net net' : Net json) (category playlistId : option jsstring)
    (path : jsstring) (st : State) (e : error)
    (query : jsstring) (page pageSize : option Z) :
  scopePath category playlistId = Ok (Some path) ->
  JSMap.has path (searchCache st) = false ->
  fst (fetchJson net path st) = Throw e ->
  let st' := snd (getSearchEntries net category playlistId st) in
  fst (getSearchEntries net category playlistId st) = Ok []
  /\ cache st' = cache st
  /\ searchCache st' = searchCache st
  /\ JSMap.has path (searchCache st') = false
  /\ indexCache st' = indexCache st
  /\ requests st' = requests st ++ [resourceURL path]
  /\ requests (snd (getSearchEntries net' category playlistId st'))
     = requests st' ++ [resourceURL path]
  /\ (forallb isWhiteSpace query = false ->
      search net query
        (Some (mkSearchOptions category playlistId page pageSize)) st
      = (Ok (mkVideoPage [] 0 (optPage page) (optPageSize pageSize)
               (Math_ceil_div 0 (optPageSize pageSize))),
         st')).
Proof.
  intros Hscope Hhas Hthrow.
  destruct (fetchJson_throws net path st e Hthrow) as (Hget & Hserved & Hfetch).
  assert (getSearchEntries net category playlistId st
          = (Ok [], with_request (resourceURL path) st)) as Hrun.
  { unfold getSearchEntries. rewrite Hscope.
    unfold getScopeEntries, bind, gets, try_catch. rewrite Hhas. simpl.
    rewrite Hfetch. reflexivity. }
  intros st'. subst st'. rewrite Hrun. simpl.
  repeat split; trivial.
  - unfold getSearchEntries. rewrite Hscope.
    unfold getScopeEntries, bind, gets, try_catch. simpl. rewrite Hhas. simpl.
    set (st1 := with_request (resourceURL path) st).
    assert (JSMap.get path (cache st1) = None) as Hget1 by exact Hget.
    destruct (fetchJson_logs_miss net' path st1 Hget1) as [Hlog _].
    destruct (fetchJson net' path st1) as [[data|e'] st2]; simpl in *.
    + unfold cachedEntries, bind, gets, modify. simpl.
      destruct (JSMap.get path
                  (JSMap.set path (asEntries V data) (searchCache st2)));
        simpl; exact Hlog.
    + exact Hlog.
  - intros Hq. unfold search. simpl.
    destruct (trim query) as [|ch s] eqn:Ht.
    + apply trim_nil in Ht. congruence.
    + simpl. unfold bind. rewrite Hrun. unfold ret. simpl.
      rewrite slice_nil. reflexivity.
Qed.

(** ** The video page loader *)

Lemma getVideo_none (net : Net json) (id : jsstring) (st : State) :
  fst (getVideo net id st) = Ok None ->
  JSMap.get (videoPath id) (cache st) = None
  /\ served net (videoPath id) = None.
Proof.
  unfold getVideo, try_catch, bind.
  destruct (fetchJson_cases net (videoPath id) st)
    as [(v & Hget & ->) | [(v & Hget & Hs & ->) | (e' & Hget & Hs & ->)]];
    simpl; try discriminate. auto.
Qed.

Lemma neighbour_begin_spec (net : Net json) (id : option jsstring) (st : State) :
  exists w st',
    neighbour_begin net id st = (Ok w, st')
    /\ cache st' = cache st
    /\ (truthy_opt id = false -> w = None /\ st' = st)
    /\ (forall i st0, id = Some i -> cache st0 = cache st ->
                      fst (getVideo net i st0) = Ok None -> resolved w = None).
Proof.
  destruct id as [[|ch s]|].
  - exists None, st. repeat split; try reflexivity.
  - unfold neighbour_begin, fetchJson_begin, bind, gets.
    destruct (JSMap.get (videoPath (ch :: s)) (cache st)) as [v|] eqn:Hget.
    + eexists _, _. split; [reflexivity|]. split; [reflexivity|].
      split; [discriminate|]. intros i st0 Hi Hc Hnone. injection Hi as <-.
      apply getVideo_none in Hnone. rewrite Hc in Hnone. destruct Hnone.
      congruence.
    + eexists _, _. split; [reflexivity|]. split; [reflexivity|].
      split; [discriminate|]. intros i st0 Hi Hc Hnone. injection Hi as <-.
      apply getVideo_none in Hnone. destruct Hnone as [_ Hs].
      unfold served in Hs. simpl.
      destruct (net (resourceURL (videoPath (ch :: s)))) as [res|];
        [|reflexivity].
      destruct (res_ok res); [|reflexivity]. rewrite Hs. reflexivity.
  - exists None, st. repeat split; try reflexivity.
Qed.

Lemma neighbour_end_spec (w : option (jsstring * pending)) (st : State) :
  exists st', neighbour_end w st = (Ok (resolved w), st').
Proof.
  destruct w as [[id [v|[res|]]]|]; simpl;
    unfold try_catch, bind, settle, throw, ret, modify; simpl;
    try (eexists; reflexivity).
  destruct (res_ok res); simpl; [|eexists; reflexivity].
  destruct (res_json res); simpl; eexists; reflexivity.
Qed.

Lemma promise_all_neighbours
    (net : Net json) (a b : option jsstring) (prevFirst : bool)
    (st sta stb : State) (wa wb : option (jsstring * pending)) :
  neighbour_begin net a st = (Ok wa, sta) ->
  neighbour_begin net b sta = (Ok wb, stb) ->
  Promise_all2 (neighbour_begin net a) neighbour_end
               (neighbour_begin net b) neighbour_end prevFirst st
  = (Ok (resolved wa, resolved wb),
     if prevFirst
     then snd (neighbour_end wb (snd (neighbour_end wa stb)))
     else snd (neighbour_end wa (snd (neighbour_end wb stb)))).
Proof.
  intros Ha Hb. unfold Promise_all2, attempt, bind. rewrite Ha, Hb.
  destruct prevFirst.
  - destruct (neighbour_end_spec wa stb) as [s1 ->]. simpl.
    destruct (neighbour_end_spec wb s1) as [s2 ->]. reflexivity.
  - destruct (neighbour_end_spec wb stb) as [s1 ->]. simpl.
    destruct (neighbour_end_spec wa s1) as [s2 ->]. reflexivity.
Qed.

(** C9. When the detail of the requested video loads, [loadVideoPage]
    does not fail, whichever neighbour settles first: it returns that
    detail with [playlistVideoCount] and [currentIndex] taken from
    [nav.total] and [nav.index], and with the default playlist name when
    the detail has none. A neighbour whose id is [null] is [null] in the
    result and costs nothing: the state after the call, log of fetches
    included, is the one that resolving the other neighbour alone leaves
    (and the state after the detail load when both are [null]). A
    neighbour whose own load gives [null] is [null] in the result. *)
Theorem loadVideoPage_neighbours
    (net : Net json) (videoId : jsstring) (prevFirst : bool)
    (st st1 : State) (detail : VideoDetails) :
  getVideo net videoId st = (Ok (Some detail), st1) ->
  exists data st2,
    loadVideoPage net videoId prevFirst st = (Ok (Some data), st2)
    /\ video data = detail
    /\ playlistVideoCount data = nav_total (nav detail)
    /\ currentIndex data = nav_index (nav detail)
    /\ (d_playlistName detail = None ->
        playlistName data = defaultPlaylistName)
    /\ (forall name, d_playlistName detail = Some name -> name <> [] ->
        playlistName data = name)
    /\ (nav_prev (nav detail) = None ->
        prevVideo data = None
        /\ st2 = snd (neighbour net (nav_next (nav detail)) st1))
    /\ (nav_next (nav detail) = None ->
        nextVideo data = None
        /\ st2 = snd (neighbour net (nav_prev (nav detail)) st1))
    /\ (nav_prev (nav detail) = None -> nav_next (nav detail) = None ->
        st2 = st1)
    /\ (forall id, nav_prev (nav detail) = Some id ->
        fst (getVideo net id st1) = Ok None -> prevVideo data = None)
    /\ (forall id, nav_next (nav detail) = Some id ->
        fst (getVideo net id st1) = Ok None -> nextVideo data = None).
Proof.
  intros Hdetail.
  destruct (neighbour_begin_spec net (nav_prev (nav detail)) st1)
    as (wa & sta & Ha & Hca & Hna & Hfa).
  destruct (neighbour_begin_spec net (nav_next (nav detail)) sta)
    as (wb & stb & Hb & Hcb & Hnb & Hfb).
  unfold loadVideoPage, bind. rewrite Hdetail.
  rewrite (promise_all_neighbours net _ _ prevFirst st1 sta stb wa wb Ha Hb).
  eexists _, _. split; [reflexivity|]. simpl.
  assert (nav_prev (nav detail) = None ->
          (if prevFirst
           then snd (neighbour_end wb (snd (neighbour_end wa stb)))
           else snd (neighbour_end wa (snd (neighbour_end wb stb))))
          = snd (neighbour net (nav_next (nav detail)) st1)) as Hprev.
  { intros Hn. rewrite Hn in Hna, Ha. destruct (Hna eq_refl) as [-> ->].
    unfold neighbour, bind. rewrite Hb.
    destruct prevFirst; reflexivity. }
  assert (nav_next (nav detail) = None ->
          (if prevFirst
           then snd (neighbour_end wb (snd (neighbour_end wa stb)))
           else snd (neighbour_end wa (snd (neighbour_end wb stb))))
          = snd (neighbour net (nav_prev (nav detail)) st1)) as Hnext.
  { intros Hn. rewrite Hn in Hnb, Hb. destruct (Hnb eq_refl) as [-> ->].
    unfold neighbour, bind. rewrite Ha.
    destruct prevFirst; reflexivity. }
  split; [reflexivity|]. split; [reflexivity|]. split; [reflexivity|].
  split; [intros ->; reflexivity|].
  split.
  { intros name -> Hne. destruct name; [contradiction | reflexivity]. }
  split.
  { intros Hn. split; [|apply Hprev; exact Hn].
    rewrite Hn in Hna. destruct (Hna eq_refl) as [-> _]. reflexivity. }
  split.
  { intros Hn. split; [|apply Hnext; exact Hn].
    rewrite Hn in Hnb. destruct (Hnb eq_refl) as [-> _]. reflexivity. }
  split.
  { intros Hp Hn. rewrite (Hprev Hp), Hn. reflexivity. }
  split.
  - intros id Hid Hnone. exact (Hfa id st1 Hid eq_refl Hnone).
  - intros id Hid Hnone. exact (Hfb id st1 Hid (eq_sym Hca) Hnone).
Qed.

(** ** Rules for invariants *)

Lemma keeps_ret {A} (I : State -> Prop) (G : A -> Prop) (a : A) :
  G a -> keeps I G (ret a).
Proof.
  intros Ha st HI. split; [exact HI|]. simpl. intros a' E.
  injection E as <-. exact Ha.
Qed.

Lemma keeps_throw {A} (I : State -> Prop) (G : A -> Prop) (e : error) :
  keeps I G (throw e).
Proof. intros st HI. split; [exact HI|]. simpl. discriminate. Qed.

Lemma keeps_gets {A} (I : State -> Prop) (G : A -> Prop) (f : State -> A) :
  (forall st, I st -> G (f st)) -> keeps I G (gets f).
Proof.
  intros Hf st HI. split; [exact HI|]. simpl. intros a E.
  injection E as <-. auto.
Qed.

Lemma keeps_modify (I : State -> Prop) (f : State -> State) :
  (forall st, I st -> I (f st)) -> keeps I anything (modify f).
Proof. intros Hf st HI. split; [apply Hf; exact HI|]. intros; exact Logic.I. Qed.

Lemma keeps_bind {A B} (I : State -> Prop) (G1 : A -> Prop) (G2 : B -> Prop)
    (m : M A) (k : A -> M B) :
  keeps I G1 m -> (forall a, G1 a -> keeps I G2 (k a)) ->
  keeps I G2 (bind m k).
Proof.
  intros Hm Hk st HI. specialize (Hm st HI). unfold bind.
  destruct (m st) as [[a|e] st']; simpl in *; destruct Hm as [HI' Ha].
  - apply (Hk a (Ha a eq_refl) st' HI').
  - split; [exact HI'|]. discriminate.
Qed.

Lemma keeps_try_catch {A} (I : State -> Prop) (G : A -> Prop) (m h : M A) :
  keeps I G m -> keeps I G h -> keeps I G (try_catch m h).
Proof.
  intros Hm Hh st HI. specialize (Hm st HI). unfold try_catch.
  destruct (m st) as [[a|e] st']; simpl in *; destruct Hm as [HI' Ha].
  - split; [exact HI'|]. exact Ha.
  - apply (Hh st' HI').
Qed.

Lemma keeps_weaken {A} (I : State -> Prop) (G G' : A -> Prop) (m : M A) :
  keeps I G m -> (forall a, G a -> G' a) -> keeps I G' m.
Proof.
  intros Hm Hw st HI. destruct (Hm st HI) as [HI' Ha].
  split; [exact HI'|]. intros a E. apply Hw, Ha, E.
Qed.

Lemma keeps_attempt {A} (I : State -> Prop) (G : A -> Prop) (m : M A) :
  keeps I G m ->
  keeps I (fun r => forall a, r = Ok a -> G a) (attempt m).
Proof.
  intros Hm st HI. specialize (Hm st HI). unfold attempt.
  destruct (m st) as [r st']; simpl in *. destruct Hm as [HI' Ha].
  split; [exact HI'|]. intros r' E. injection E as <-. exact Ha.
Qed.

(** A join of two calls keeps an invariant that each part keeps, the
    second parts relying on what the first parts returned. *)
Lemma keeps_Promise_all2 {PA PB A B} (I : State -> Prop)
    (GA : PA -> Prop) (GB : PB -> Prop)
    (beginA : M PA) (endA : PA -> M A) (beginB : M PB) (endB : PB -> M B)
    (aFirst : bool) :
  keeps I GA beginA -> keeps I GB beginB ->
  (forall w, GA w -> keeps I anything (endA w)) ->
  (forall w, GB w -> keeps I anything (endB w)) ->
  keeps I anything (Promise_all2 beginA endA beginB endB aFirst).
Proof.
  intros HbA HbB HeA HeB. unfold Promise_all2.
  eapply keeps_bind; [apply keeps_attempt, HbA|]. intros ra Hra.
  eapply keeps_bind; [apply keeps_attempt, HbB|]. intros rb Hrb.
  destruct ra as [wa|ea], rb as [wb|eb].
  - specialize (Hra wa eq_refl). specialize (Hrb wb eq_refl).
    destruct aFirst.
    + eapply keeps_bind; [apply keeps_attempt, HeA, Hra|]. intros oa _.
      eapply keeps_bind; [apply keeps_attempt, HeB, Hrb|]. intros ob _.
      destruct oa, ob; first [apply keeps_ret; exact Logic.I | apply keeps_throw].
    + eapply keeps_bind; [apply keeps_attempt, HeB, Hrb|]. intros ob _.
      eapply keeps_bind; [apply keeps_attempt, HeA, Hra|]. intros oa _.
      destruct oa, ob; first [apply keeps_ret; exact Logic.I | apply keeps_throw].
  - eapply keeps_bind; [apply keeps_attempt, HeA, Hra, eq_refl|]. intros _ _.
    apply keeps_throw.
  - eapply keeps_bind; [apply keeps_attempt, HeB, Hrb, eq_refl|]. intros _ _.
    apply keeps_throw.
  - apply keeps_throw.
Qed.

Lemma keeps_state {A} (I : State -> Prop) (G : A -> Prop) (m : M A) (st : State) :
  keeps I G m -> I st -> I (snd (m st)).
Proof. intros Hm HI. apply (Hm st HI). Qed.

(** ** The paths the module builds *)

Ltac built_path :=
  intros H; injection H as <-;
  repeat match goal with
         | |- _ /\ _ => split
         | |- exists rest, _ = _ => eexists; reflexivity
         | |- _ <> _ => discriminate
         end.

Lemma listingPath_dataPath (page : Z) (sort : Sort)
    (category playlistId : option jsstring) (path : jsstring) :
  listingPath page sort category playlistId = Ok path -> dataPath path.
Proof.
  unfold listingPath, dataPath.
  destruct playlistId as [[|ch s]|]; try built_path;
    (destruct (categoryFilter category) as [cat|]; [|built_path];
     destruct (encodeURIComponent cat) as [enc|]; [|discriminate];
     built_path).
Qed.

Lemma videoPath_dataPath (id : jsstring) : dataPath (videoPath id).
Proof. split; [eexists; reflexivity | discriminate]. Qed.

Lemma manifestPath_dataPath : dataPath manifestPath.
Proof. split; [eexists; reflexivity | discriminate]. Qed.

Lemma chunkPath_dataPath (i : Z) : dataPath (chunkPath i).
Proof. split; [eexists; reflexivity | discriminate]. Qed.

Lemma scopePath_dataPath (category playlistId : option jsstring)
    (path : jsstring) :
  scopePath category playlistId = Ok (Some path) ->
  dataPath path /\ path <> allKey.
Proof.
  unfold scopePath, dataPath.
  destruct playlistId as [[|ch s]|]; try built_path;
    (destruct (categoryFilter category) as [cat|]; [|discriminate];
     destruct (encodeURIComponent cat) as [enc|]; [|discriminate];
     built_path).
Qed.

Lemma dataPath_nonempty (path : jsstring) : dataPath path -> path <> [].
Proof. intros [[rest ->] _]. discriminate. Qed.

Lemma resourceURL_inj (p q : jsstring) :
  resourceURL p = resourceURL q -> p = q.
Proof.
  unfold resourceURL. destruct isServer.
  - rewrite !app_assoc. apply app_inv_head.
  - apply app_inv_head.
Qed.

(** ** Invariants of the module, generically

    An invariant [I] of the state, with a property [okData] of the
    payloads it relies on, is kept by every exported function as soon as
    it is kept by the elementary updates: logging a request, storing a
    payload in the cache, setting the index memo, setting an entry of the
    search-scope cache. *)

Section Invariant.

Variable net : Net json.
Variable I : State -> Prop.
Variable okData : jsstring -> json -> Prop.

Hypothesis I_served :
  forall path data, served net path = Some data -> okData path data.
Hypothesis I_hit :
  forall path data st,
    I st -> JSMap.get path (cache st) = Some data -> okData path data.
Hypothesis I_data : forall path, dataPath path -> fetchable I okData path.
Hypothesis I_index :
  (exists st0, I st0 /\ indexCache st0 = None) ->
  fetchable I okData indexPath
  /\ forall data st, okData indexPath data -> I st ->
                     I (with_indexCache (Some (asSiteIndex V data)) st).
Hypothesis I_scope :
  forall path data st,
    dataPath path -> path <> allKey -> okData path data -> I st ->
    I (with_searchCache (JSMap.set path (asEntries V data)) st).
Hypothesis I_all :
  forall manifest es st,
    okData manifestPath manifest ->
    chunksOk okData (Z.to_nat (totalChunks (asManifest V manifest))) 1 es ->
    I st -> I (with_searchCache (JSMap.set allKey es) st).

Lemma keeps_settle (path : jsstring) :
  fetchable I okData path ->
  keeps I (okData path) (settle path (net (resourceURL path))).
Proof.
  intros [_ Hstore]. unfold settle.
  pose proof (I_served path) as Hs. unfold served in Hs.
  destruct (net (resourceURL path)) as [res|]; [|apply keeps_throw].
  destruct (res_ok res); simpl; [|apply keeps_throw].
  destruct (res_json res) as [data|]; [|apply keeps_throw].
  specialize (Hs data eq_refl).
  eapply keeps_bind.
  - apply keeps_modify. intros st HI. apply Hstore; assumption.
  - intros _ _. apply keeps_ret. exact Hs.
Qed.

Lemma keeps_fetch (path : jsstring) :
  fetchable I okData path ->
  keeps I (fun r => r = net (resourceURL path))
        (fetch net (resourceURL path)).
Proof.
  intros [Hreq _] st HI. split; [apply Hreq; exact HI|]. simpl.
  intros r E. injection E as <-. reflexivity.
Qed.

Lemma keeps_fetchJson (path : jsstring) :
  fetchable I okData path -> keeps I (okData path) (fetchJson net path).
Proof.
  intros Hf. unfold fetchJson.
  eapply keeps_bind with
    (G1 := fun hit => forall v, hit = Some v -> okData path v).
  - apply keeps_gets. intros st HI v Hv. exact (I_hit path v st HI Hv).
  - intros [v|] Hhit.
    + apply keeps_ret. apply Hhit. reflexivity.
    + eapply keeps_bind; [apply keeps_fetch, Hf|].
      intros r ->. apply keeps_settle, Hf.
Qed.

Lemma keeps_fetchJson_begin (path : jsstring) :
  fetchable I okData path ->
  keeps I (goodPending net okData path) (fetchJson_begin net path).
Proof.
  intros Hf. unfold fetchJson_begin.
  eapply keeps_bind with
    (G1 := fun hit => forall v, hit = Some v -> okData path v).
  - apply keeps_gets. intros st HI v Hv. exact (I_hit path v st HI Hv).
  - intros [v|] Hhit.
    + apply keeps_ret. apply Hhit. reflexivity.
    + eapply keeps_bind; [apply keeps_fetch, Hf|].
      intros r ->. apply keeps_ret. reflexivity.
Qed.

Lemma keeps_fetchJson_end (path : jsstring) (w : pending) :
  fetchable I okData path -> goodPending net okData path w ->
  keeps I (okData path) (fetchJson_end path w).
Proof.
  intros Hf Hw. destruct w as [v|r]; simpl in *.
  - apply keeps_ret. exact Hw.
  - subst r. apply keeps_settle, Hf.
Qed.

Lemma keeps_any {A} (G : A -> Prop) (m : M A) :
  keeps I G m -> keeps I anything m.
Proof. intros H. eapply keeps_weaken; [exact H|]. intros; exact Logic.I. Qed.

Lemma keeps_getIndex : keeps I anything (getIndex net).
Proof.
  unfold getIndex.
  eapply keeps_bind with
    (G1 := fun ic => ic = None -> exists st0, I st0 /\ indexCache st0 = None).
  - apply keeps_gets. intros st HI E. exists st. auto.
  - intros [i|] Hic; [apply keeps_ret; exact Logic.I|].
    destruct (I_index (Hic eq_refl)) as [Hf Hset].
    eapply keeps_bind; [apply keeps_fetchJson, Hf|]. intros data Hdata.
    eapply keeps_bind.
    + apply keeps_modify. intros st HI. apply Hset; assumption.
    + intros _ _. apply keeps_ret. exact Logic.I.
Qed.

Lemma keeps_getVideos (options : ListingOptions) :
  keeps I anything (getVideos net options).
Proof.
  unfold getVideos.
  destruct (listingPath _ _ _ _) as [path|e] eqn:Hpath; [|apply keeps_throw].
  apply listingPath_dataPath, I_data in Hpath.
  apply keeps_try_catch; [|apply keeps_ret; exact Logic.I].
  eapply keeps_bind; [apply keeps_fetchJson, Hpath|].
  intros data _. apply keeps_ret. exact Logic.I.
Qed.

Lemma keeps_getVideo (id : jsstring) : keeps I anything (getVideo net id).
Proof.
  unfold getVideo.
  apply keeps_try_catch; [|apply keeps_ret; exact Logic.I].
  eapply keeps_bind; [apply keeps_fetchJson, I_data, videoPath_dataPath|].
  intros data _. apply keeps_ret. exact Logic.I.
Qed.

Lemma keeps_chunkLoop (n : nat) :
  forall (i : Z) (acc : list SearchEntry),
    keeps I (fun es => exists rest, chunksOk okData n i rest /\ es = acc ++ rest)
          (chunkLoop net n i acc).
Proof.
  induction n as [|n IH]; intros i acc; simpl.
  - apply keeps_ret. exists []. split; [constructor|].
    rewrite app_nil_r. reflexivity.
  - eapply keeps_bind; [apply keeps_fetchJson, I_data, chunkPath_dataPath|].
    intros data Hdata. eapply keeps_weaken; [apply IH|].
    intros es [rest [Hrest ->]].
    exists (entries (asChunk V data) ++ rest). split.
    + constructor; assumption.
    + rewrite app_assoc. reflexivity.
Qed.

Lemma keeps_cachedEntries (key : jsstring) :
  keeps I anything (cachedEntries key).
Proof.
  unfold cachedEntries.
  eapply keeps_bind with (G1 := anything).
  - apply keeps_gets. intros; exact Logic.I.
  - intros [es|] _; [apply keeps_ret; exact Logic.I | apply keeps_throw].
Qed.

Lemma keeps_getAllEntries : keeps I anything (getAllEntries net).
Proof.
  unfold getAllEntries.
  eapply keeps_bind;
    [apply keeps_fetchJson, I_data, manifestPath_dataPath|].
  intros manifest Hm.
  eapply keeps_bind with (G1 := anything).
  { apply keeps_gets. intros; exact Logic.I. }
  intros known _.
  eapply keeps_bind with (G1 := anything);
    [|intros _ _; apply keeps_cachedEntries].
  destruct known; simpl; [apply keeps_ret; exact Logic.I|].
  eapply keeps_bind; [apply keeps_chunkLoop|].
  intros es [rest [Hrest ->]]. apply keeps_modify.
  intros st HI. simpl. apply (I_all manifest rest st Hm Hrest HI).
Qed.

Lemma keeps_getScopeEntries (path : jsstring) :
  dataPath path -> path <> allKey ->
  keeps I anything (getScopeEntries net path).
Proof.
  intros Hd Hne. unfold getScopeEntries.
  eapply keeps_bind with (G1 := anything).
  { apply keeps_gets. intros; exact Logic.I. }
  intros known _.
  eapply keeps_bind with (G1 := anything).
  - destruct known; simpl; [apply keeps_ret; exact Logic.I|].
    apply keeps_try_catch; [|apply keeps_ret; exact Logic.I].
    eapply keeps_bind; [apply keeps_fetchJson, I_data, Hd|].
    intros data Hdata. eapply keeps_bind.
    + apply keeps_modify. intros st HI. apply I_scope; assumption.
    + intros _ _. apply keeps_ret. exact Logic.I.
  - intros [es|] _; [apply keeps_ret; exact Logic.I|].
    apply keeps_cachedEntries.
Qed.

Lemma keeps_getSearchEntries (category playlistId : option jsstring) :
  keeps I anything (getSearchEntries net category playlistId).
Proof.
  unfold getSearchEntries.
  destruct (scopePath category playlistId) as [[path|]|e] eqn:Hscope.
  - destruct (scopePath_dataPath _ _ _ Hscope) as [Hd Hne].
    apply keeps_getScopeEntries; assumption.
  - apply keeps_getAllEntries.
  - apply keeps_throw.
Qed.

Lemma keeps_search (query : jsstring) (options : option SearchOptions) :
  keeps I anything (search net query options).
Proof.
  unfold search.
  destruct (negb (truthy (trim query))); [apply keeps_ret; exact Logic.I|].
  eapply keeps_bind; [apply keeps_getSearchEntries|].
  intros es _. apply keeps_ret. exact Logic.I.
Qed.

Lemma keeps_loadStudyHome (options : ListingOptions) (indexFirst : bool) :
  keeps I anything (loadStudyHome net options indexFirst).
Proof.
  unfold loadStudyHome.
  eapply keeps_bind with (G1 := anything).
  - eapply keeps_Promise_all2 with
      (GA := fun w => match w with
                      | inl _ => True
                      | inr w' =>
                          (exists st0, I st0 /\ indexCache st0 = None)
                          /\ goodPending net okData indexPath w'
                      end)
      (GB := fun w => let '(_, path, w') := w in
                      dataPath path /\ goodPending net okData path w').
    + unfold getIndex_begin.
      eapply keeps_bind with
        (G1 := fun ic =>
                 ic = None -> exists st0, I st0 /\ indexCache st0 = None).
      * apply keeps_gets. intros st HI E. exists st. auto.
      * intros [i|] Hic; [apply keeps_ret; exact Logic.I|].
        destruct (I_index (Hic eq_refl)) as [Hf _].
        eapply keeps_bind; [apply keeps_fetchJson_begin, Hf|].
        intros w Hw. apply keeps_ret. auto.
    + unfold getVideos_begin.
      destruct (listingPath _ _ _ _) as [path|e] eqn:Hpath;
        [|apply keeps_throw].
      apply listingPath_dataPath in Hpath.
      eapply keeps_bind; [apply keeps_fetchJson_begin, I_data, Hpath|].
      intros w Hw. apply keeps_ret. auto.
    + intros [i|w'] Hw; simpl; [apply keeps_ret; exact Logic.I|].
      destruct Hw as [Hex Hw]. destruct (I_index Hex) as [Hf Hset].
      eapply keeps_bind; [apply keeps_fetchJson_end; [exact Hf|exact Hw]|].
      intros data Hdata. eapply keeps_bind.
      * apply keeps_modify. intros st HI. apply Hset; assumption.
      * intros _ _. apply keeps_ret. exact Logic.I.
    + intros [[page path] w'] [Hd Hw]. unfold getVideos_end.
      apply keeps_try_catch; [|apply keeps_ret; exact Logic.I].
      eapply keeps_bind;
        [apply keeps_fetchJson_end; [apply I_data, Hd|exact Hw]|].
      intros data _. apply keeps_ret. exact Logic.I.
  - intros [index videos] _. apply keeps_ret. exact Logic.I.
Qed.

Lemma keeps_neighbours (a b : option jsstring) (prevFirst : bool) :
  keeps I anything
        (Promise_all2 (neighbour_begin net a) neighbour_end
                      (neighbour_begin net b) neighbour_end prevFirst).
Proof.
  assert (forall id,
             keeps I (fun w => match w with
                               | Some (i, w') =>
                                   goodPending net okData (videoPath i) w'
                               | None => True
                               end)
                   (neighbour_begin net id)) as Hbegin.
  { intros [[|ch s]|]; simpl; try (apply keeps_ret; exact Logic.I).
    eapply keeps_bind;
      [apply keeps_fetchJson_begin, I_data, videoPath_dataPath|].
    intros w Hw. apply keeps_ret. exact Hw. }
  assert (forall w,
             match w with
             | Some (i, w') => goodPending net okData (videoPath i) w'
             | None => True
             end -> keeps I anything (neighbour_end w)) as Hend.
  { intros [[i w']|] Hw; simpl; [|apply keeps_ret; exact Logic.I].
    eapply keeps_bind with (G1 := anything).
    - apply keeps_try_catch; [|apply keeps_ret; exact Logic.I].
      eapply keeps_bind;
        [apply keeps_fetchJson_end;
         [apply I_data, videoPath_dataPath | exact Hw]|].
      intros data _. apply keeps_ret. exact Logic.I.
    - intros v _. apply keeps_ret. exact Logic.I. }
  eapply keeps_Promise_all2; eauto.
Qed.

Lemma keeps_loadVideoPage (videoId : jsstring) (prevFirst : bool) :
  keeps I anything (loadVideoPage net videoId prevFirst).
Proof.
  unfold loadVideoPage.
  eapply keeps_bind; [apply keeps_getVideo|].
  intros [detail|] _; [|apply keeps_ret; exact Logic.I].
  eapply keeps_bind; [apply keeps_neighbours|].
  intros [pv nv] _. apply keeps_ret. exact Logic.I.
Qed.

(** Every call keeps the invariant. *)
Lemma perform_keeps (call : Call) (st : State) :
  I st -> I (perform net call st).
Proof.
  intros HI. destruct call; simpl.
  - exact (keeps_state _ _ _ st keeps_getIndex HI).
  - exact (keeps_state _ _ _ st (keeps_getVideos options) HI).
  - exact (keeps_state _ _ _ st (keeps_getVideo id) HI).
  - exact (keeps_state _ _ _ st (keeps_search query options) HI).
  - exact (keeps_state _ _ _ st (keeps_loadStudyHome options indexFirst) HI).
  - exact (keeps_state _ _ _ st (keeps_loadVideoPage videoId prevFirst) HI).
Qed.

End Invariant.

(** ** The bounded cache *)

Lemma get_none_keys {A : Type} (k : jsstring) (m : JSMap.t A) :
  JSMap.get k m = None <-> ~ In k (JSMap.keys m).
Proof.
  induction m as [|[k' v'] m IH]; simpl.
  - split; auto.
  - destruct (str_eqb k' k) eqn:E.
    + apply str_eqb_eq in E. split; [discriminate|]. intros H.
      exfalso. apply H. left. exact E.
    + apply str_eqb_neq in E. rewrite IH. split.
      * intros H [Hk|Hin]; [contradiction|]. apply H, Hin.
      * intros H Hin. apply H. right. exact Hin.
Qed.

Lemma set_absent {A : Type} (k : jsstring) (v : A) (m : JSMap.t A) :
  JSMap.get k m = None -> JSMap.set k v m = m ++ [(k, v)].
Proof.
  induction m as [|[k' v'] m IH]; simpl; [reflexivity|].
  destruct (str_eqb k' k); [discriminate|]. intros H. rewrite IH; auto.
Qed.

Lemma set_present_keys {A : Type} (k : jsstring) (v x : A) (m : JSMap.t A) :
  JSMap.get k m = Some x -> JSMap.keys (JSMap.set k v m) = JSMap.keys m.
Proof.
  induction m as [|[k' v'] m IH]; simpl; [discriminate|].
  destruct (str_eqb k' k); simpl; [reflexivity|].
  intros H. rewrite IH; auto.
Qed.

Lemma get_set_same {A : Type} (k : jsstring) (v : A) (m : JSMap.t A) :
  JSMap.get k (JSMap.set k v m) = Some v.
Proof.
  induction m as [|[k' v'] m IH]; simpl.
  - rewrite str_eqb_refl. reflexivity.
  - destruct (str_eqb k' k) eqn:E; simpl; rewrite E; auto.
Qed.

Lemma in_set {A : Type} (k : jsstring) (v : A) (m : JSMap.t A)
    (k0 : jsstring) (v0 : A) :
  In (k0, v0) (JSMap.set k v m) -> (k0 = k /\ v0 = v) \/ In (k0, v0) m.
Proof.
  induction m as [|[k' v'] m IH]; simpl.
  - intros [H|[]]. injection H as <- <-. auto.
  - destruct (str_eqb k' k) eqn:E; simpl.
    + apply str_eqb_eq in E. subst k'.
      intros [H|H]; [injection H as <- <-|]; auto.
    + intros [H|H]; [auto|]. destruct (IH H); auto.
Qed.

Lemma get_in {A : Type} (k : jsstring) (v : A) (m : JSMap.t A) :
  JSMap.get k m = Some v -> In (k, v) m.
Proof.
  induction m as [|[k' v'] m IH]; simpl; [discriminate|].
  destruct (str_eqb k' k) eqn:E.
  - apply str_eqb_eq in E. subst k'. intros H. injection H as ->. auto.
  - auto.
Qed.

(** What [cacheSet] does to a cache that the module maintains: with room
    left it is a plain [set]; on a full cache the first entry goes, then
    the [set] happens. *)
Lemma cacheSet_cases (key : jsstring) (value : json) (c : JSMap.t json) :
  cache_ok c ->
  ((JSMap.size c < MAX_CACHE_SIZE)%Z
   /\ cacheSet key value c = JSMap.set key value c)
  \/ (JSMap.size c = MAX_CACHE_SIZE
      /\ exists k v rest,
           c = (k, v) :: rest
           /\ cacheSet key value c = JSMap.set key value rest).
Proof.
  intros (Hsize & Hkeys & _). unfold cacheSet.
  destruct (MAX_CACHE_SIZE <=? JSMap.size c)%Z eqn:E.
  - apply Z.leb_le in E. right. split; [lia|].
    destruct c as [|[k v] rest].
    + unfold JSMap.size, MAX_CACHE_SIZE in E. simpl in E. lia.
    + exists k, v, rest. split; [reflexivity|]. simpl.
      inversion Hkeys as [|? ? Hk _]; subst.
      destruct k as [|ch s]; [contradiction|]. simpl.
      rewrite N.eqb_refl, str_eqb_refl. reflexivity.
  - apply Z.leb_gt in E. left. auto.
Qed.

Lemma set_ok (key : jsstring) (value : json) (c : JSMap.t json) :
  key <> [] ->
  Forall (fun k => k <> []) (JSMap.keys c) -> NoDup (JSMap.keys c) ->
  Forall (fun k => k <> []) (JSMap.keys (JSMap.set key value c))
  /\ NoDup (JSMap.keys (JSMap.set key value c))
  /\ (JSMap.size (JSMap.set key value c) <= JSMap.size c + 1)%Z.
Proof.
  intros Hkey Hall Hnd. destruct (JSMap.get key c) as [x|] eqn:Hget.
  - rewrite (set_present_keys key value x c Hget).
    split; [exact Hall|]. split; [exact Hnd|].
    unfold JSMap.size.
    replace (length (JSMap.set key value c)) with (length c); [lia|].
    rewrite <- (length_map fst c), <- (length_map fst (JSMap.set key value c)).
    change (map fst c) with (JSMap.keys c).
    change (map fst (JSMap.set key value c))
      with (JSMap.keys (JSMap.set key value c)).
    rewrite (set_present_keys key value x c Hget). reflexivity.
  - rewrite (set_absent key value c Hget). unfold JSMap.keys, JSMap.size.
    rewrite map_app, length_app. simpl. split; [|split].
    + apply Forall_app. split; [exact Hall|]. constructor; auto.
    + apply get_none_keys in Hget. apply NoDup_app; [exact Hnd | |].
      * constructor; [intros []|constructor].
      * intros k Hin [<-|[]]. contradiction.
    + lia.
Qed.

Lemma cacheSet_ok (key : jsstring) (value : json) (c : JSMap.t json) :
  key <> [] -> cache_ok c -> cache_ok (cacheSet key value c).
Proof.
  intros Hkey Hok. pose proof Hok as (Hsize & Hall & Hnd).
  destruct (cacheSet_cases key value c Hok)
    as [[Hlt ->] | [Heq (k & v & rest & -> & ->)]].
  - destruct (set_ok key value c Hkey Hall Hnd) as (H1 & H2 & H3).
    repeat split; trivial. unfold MAX_CACHE_SIZE in *. lia.
  - simpl in Hall, Hnd. apply Forall_inv_tail in Hall.
    apply NoDup_cons_iff in Hnd. destruct Hnd as [_ Hnd].
    destruct (set_ok key value rest Hkey) as (H1 & H2 & H3); trivial.
    repeat split; trivial.
    unfold JSMap.size in *. simpl length in Heq. lia.
Qed.

(** Every history of calls, under any behaviour of the network and any
    order of settling, leaves a cache that is well kept. *)
Lemma run_cache_ok (calls : list (Net json * Call)) (st : State) :
  cache_ok (cache st) -> cache_ok (cache (run calls st)).
Proof.
  revert st. induction calls as [|[net call] calls IH]; intros st Hok;
    simpl; [exact Hok|].
  apply IH.
  apply (perform_keeps net (fun st => cache_ok (cache st))
                       (fun _ _ => True)); trivial.
  - intros path Hd. split; [auto|]. intros data s _ Hs. simpl.
    apply cacheSet_ok; [apply dataPath_nonempty, Hd | exact Hs].
  - intros _. split; [split|]; auto.
    intros data s _ Hs. simpl. apply cacheSet_ok; [discriminate | exact Hs].
Qed.

Lemma initial_cache_ok : cache_ok (cache initial).
Proof.
  repeat split; simpl.
  - unfold JSMap.size, MAX_CACHE_SIZE. simpl. lia.
  - constructor.
  - constructor.
Qed.

(** C1. After every history of calls of the exported functions, whatever
    the network does and in whichever order concurrent fetches settle,
    the bounded fetch cache holds at most 100 entries. When it holds 100
    and a fetch of a path that is not cached completes, exactly the
    first entry in insertion order (the earliest inserted one still
    present) is removed and the new entry is appended: every other entry
    keeps its place, the evicted key is gone, and the cache holds 100
    entries again. A read that hits the cache changes nothing, so it does
    not touch the order in which entries will be evicted. *)
Theorem cache_bounded_fifo (calls : list (Net json * Call)) :
  let st := run calls initial in
  (JSMap.size (cache st) <= 100)%Z
  /\ (forall net path data,
        JSMap.size (cache st) = 100%Z ->
        JSMap.has path (cache st) = false ->
        served net path = Some data ->
        exists oldest value rest,
          cache st = (oldest, value) :: rest
          /\ fst (fetchJson net path st) = Ok data
          /\ cache (snd (fetchJson net path st)) = rest ++ [(path, data)]
          /\ ~ In oldest (JSMap.keys (cache (snd (fetchJson net path st))))
          /\ JSMap.size (cache (snd (fetchJson net path st))) = 100%Z)
  /\ (forall net path value,
        JSMap.get path (cache st) = Some value ->
        fetchJson net path st = (Ok value, st)).
Proof.
  intros st.
  assert (cache_ok (cache st)) as Hok
    by (apply run_cache_ok, initial_cache_ok).
  split; [apply Hok|]. split.
  - intros net path data Hfull Hhas Hserved. apply has_get in Hhas.
    destruct (cacheSet_cases path data (cache st) Hok)
      as [[Hlt _] | [_ (k & v & rest & Hc & Hset)]];
      [unfold MAX_CACHE_SIZE in Hlt; lia|].
    exists k, v, rest. split; [exact Hc|].
    rewrite (fetchJson_miss net path st Hhas).
    rewrite (settle_served net path _ data Hserved). simpl.
    rewrite Hset.
    assert (JSMap.get path rest = None) as Hrest.
    { rewrite Hc in Hhas. simpl in Hhas.
      destruct (str_eqb k path); [discriminate | exact Hhas]. }
    rewrite (set_absent path data rest Hrest).
    split; [reflexivity|]. split; [reflexivity|]. split.
    + destruct Hok as (_ & _ & Hnd). rewrite Hc in Hnd. simpl in Hnd.
      inversion Hnd as [|? ? Hnotin _]; subst.
      unfold JSMap.keys. rewrite map_app. simpl. intros Hin.
      apply in_app_or in Hin. destruct Hin as [Hin|[<-|[]]].
      * apply Hnotin, Hin.
      * rewrite Hc in Hhas. simpl in Hhas. rewrite str_eqb_refl in Hhas.
        discriminate.
    + rewrite Hc in Hfull. unfold JSMap.size in *. rewrite length_app.
      simpl length in *. lia.
  - intros net path value Hget. apply fetchJson_hit. exact Hget.
Qed.

(** ** The index memo *)

Lemma run_index_settled (idx : SiteIndex) (base : list jsstring)
    (calls : list (Net json * Call)) (st : State) :
  index_settled idx base st -> index_settled idx base (run calls st).
Proof.
  revert st. induction calls as [|[net call] calls IH]; intros st Hst;
    simpl; [exact Hst|].
  apply IH.
  apply (perform_keeps net (index_settled idx base) (fun _ _ => True));
    trivial.
  - intros path [_ Hne]. split; [|auto].
    intros s [Hidx (extra & Hreq & Hnot)]. split; [exact Hidx|].
    exists (extra ++ [resourceURL path]). simpl. rewrite Hreq, app_assoc.
    split; [reflexivity|]. intros Hin. apply in_app_or in Hin.
    destruct Hin as [Hin|[E|[]]]; [exact (Hnot Hin)|].
    apply resourceURL_inj in E. apply Hne. exact E.
  - intros (st0 & [Hidx _] & Hnone). congruence.
Qed.

(** C5. [getIndex] memoises the Site Index in [indexCache]. A call that
    succeeds sets the memo; from then on, after any history of calls and
    whatever the network does, [getIndex] returns that same index and
    leaves the state untouched, and no request for [/index.json] is ever
    logged again. The memo alone decides: with [indexCache] set, the call
    returns it without a fetch whatever the bounded cache holds (so also
    after [/index.json] has been evicted from it). The first call (memo
    empty, nothing cached) issues the fetch of [/index.json]; when that
    fetch fails the call throws the error of [fetchJson], returns no
    index, and leaves the memo empty. *)
Theorem getIndex_loads_once (net : Net json) (st : State) :
  (forall idx st1,
      getIndex net st = (Ok idx, st1) ->
      indexCache st1 = Some idx
      /\ forall (calls : list (Net json * Call)) (net' : Net json),
           getIndex net' (run calls st1) = (Ok idx, run calls st1)
           /\ exists extra,
                requests (run calls st1) = requests st1 ++ extra
                /\ ~ In (resourceURL indexPath) extra)
  /\ (forall idx, indexCache st = Some idx ->
                  getIndex net st = (Ok idx, st))
  /\ (indexCache st = None ->
      JSMap.has indexPath (cache st) = false ->
      requests (snd (getIndex net st))
      = requests st ++ [resourceURL indexPath])
  /\ (forall e,
        indexCache st = None ->
        fst (fetchJson net indexPath st) = Throw e ->
        fst (getIndex net st) = Throw e
        /\ indexCache (snd (getIndex net st)) = None).
Proof.
  assert (forall net0 s idx, indexCache s = Some idx ->
                             getIndex net0 s = (Ok idx, s)) as Hmemo.
  { intros net0 s idx H. unfold getIndex, bind, gets. rewrite H. reflexivity. }
  split; [|split; [|split]].
  - intros idx st1 Hrun.
    assert (indexCache st1 = Some idx) as Hset.
    { unfold getIndex, bind, gets in Hrun.
      destruct (indexCache st) as [i|] eqn:Hic.
      - injection Hrun as <- <-. exact Hic.
      - destruct (fetchJson net indexPath st) as [[data|e] s]; simpl in Hrun;
          [|discriminate].
        injection Hrun as <- <-. reflexivity. }
    split; [exact Hset|]. intros calls net'.
    assert (index_settled idx (requests st1) st1) as Hst1.
    { split; [exact Hset|]. exists []. rewrite app_nil_r. auto. }
    destruct (run_index_settled idx (requests st1) calls st1 Hst1)
      as [Hidx Hreq].
    split; [apply Hmemo, Hidx | exact Hreq].
  - intros idx. apply Hmemo.
  - intros Hnone Hhas. apply has_get in Hhas.
    unfold getIndex, bind, gets. rewrite Hnone.
    destruct (fetchJson_logs_miss net indexPath st Hhas) as [Hlog _].
    destruct (fetchJson net indexPath st) as [[data|e] s]; simpl in *;
      exact Hlog.
  - intros e Hnone Hthrow.
    destruct (fetchJson_throws net indexPath st e Hthrow) as (_ & _ & E).
    unfold getIndex, bind, gets. rewrite Hnone, E. simpl. auto.
Qed.

(** ** Coherence of the caches with static content *)

Lemma in_delete {A : Type} (k : jsstring) (m : JSMap.t A) (x : jsstring * A) :
  In x (JSMap.delete k m) -> In x m.
Proof.
  induction m as [|[k' v'] m IH]; simpl; [auto|].
  destruct (str_eqb k' k); simpl; [auto|]. intros [H|H]; auto.
Qed.

Lemma in_cacheSet (key : jsstring) (value : json) (c : JSMap.t json)
    (k0 : jsstring) (v0 : json) :
  In (k0, v0) (cacheSet key value c) ->
  (k0 = key /\ v0 = value) \/ In (k0, v0) c.
Proof.
  unfold cacheSet. intros H. apply in_set in H. destruct H as [H|H]; [auto|].
  right. destruct (MAX_CACHE_SIZE <=? JSMap.size c)%Z; [|exact H].
  destruct (JSMap.firstKey c) as [k|]; [|exact H].
  destruct (truthy k); [|exact H]. apply (in_delete k c _ H).
Qed.

Lemma chunksOk_chunksFrom (net : Net json) (n : nat) (i : Z)
    (es : list SearchEntry) :
  chunksOk (fun path data => served net path = Some data) n i es ->
  chunksFrom net n i = Some es.
Proof.
  induction 1 as [|n i data es Hdata _ IH]; simpl; [reflexivity|].
  rewrite Hdata, IH. reflexivity.
Qed.

Lemma coherent_cacheSet (net : Net json) (path : jsstring) (data : json)
    (st : State) :
  served net path = Some data -> coherent net st ->
  coherent net (with_cache (cacheSet path data) st).
Proof.
  intros Hs [Hc Ha]. split; [|exact Ha]. simpl. intros p v Hin.
  apply in_cacheSet in Hin. destruct Hin as [[-> ->]|Hin]; auto.
Qed.

(** Every call against the same content keeps the caches coherent with
    it. *)
Lemma perform_coherent (net : Net json) (call : Call) (st : State) :
  coherent net st -> coherent net (perform net call st).
Proof.
  apply (perform_keeps net (coherent net)
                       (fun path data => served net path = Some data)).
  - auto.
  - intros path data s [Hc _] Hget. apply Hc, get_in, Hget.
  - intros path _. split; [intros s Hs; exact Hs|].
    intros data s Hd Hs. apply coherent_cacheSet; assumption.
  - intros _. split; [split|].
    + intros s Hs. exact Hs.
    + intros data s Hd Hs. apply coherent_cacheSet; assumption.
    + intros data s _ Hs. exact Hs.
  - intros path data s _ Hne _ [Hc Ha]. split; [exact Hc|]. simpl.
    intros es Hin. apply in_set in Hin. destruct Hin as [[E _]|Hin]; auto.
    exfalso. apply Hne. symmetry. exact E.
  - intros manifest es s Hm Hchunks [Hc Ha]. split; [exact Hc|]. simpl.
    intros es' Hin. apply in_set in Hin. destruct Hin as [[_ ->]|Hin]; auto.
    unfold manifestChunks. rewrite Hm.
    apply chunksOk_chunksFrom. exact Hchunks.
Qed.

Lemma run_static_coherent (net : Net json) (calls : list Call) (st : State) :
  coherent net st -> coherent net (run_static net calls st).
Proof.
  unfold run_static. revert st.
  induction calls as [|call calls IH]; intros st Hst; simpl; [exact Hst|].
  apply IH, perform_coherent, Hst.
Qed.

Lemma initial_coherent (net : Net json) : coherent net initial.
Proof. split; simpl; [intros path data [] | intros es []]. Qed.

(** On coherent caches a resource that the network serves is obtained,
    from the cache or by a fetch. *)
Lemma fetchJson_coherent (net : Net json) (path : jsstring) (data : json)
    (st : State) :
  coherent net st -> served net path = Some data ->
  exists st',
    fetchJson net path st = (Ok data, st')
    /\ coherent net st'
    /\ searchCache st' = searchCache st.
Proof.
  intros Hst Hs.
  destruct (fetchJson_cases net path st)
    as [(v & Hget & E) | [(v & Hget & Hs' & E) | (e & _ & Hs' & _)]].
  - exists st. pose proof Hst as [Hc _].
    apply get_in, Hc in Hget. rewrite Hs in Hget. injection Hget as ->.
    split; [exact E|]. split; [exact Hst|reflexivity].
  - rewrite Hs in Hs'. injection Hs' as <-. eexists. split; [exact E|].
    split; [|reflexivity].
    apply coherent_cacheSet; [exact Hs|].
    destruct Hst as [Hc Ha]. split; assumption.
  - congruence.
Qed.

Lemma chunkLoop_coherent (net : Net json) (n : nat) :
  forall (i : Z) (acc rest : list SearchEntry) (st : State),
    coherent net st -> chunksFrom net n i = Some rest ->
    exists st',
      chunkLoop net n i acc st = (Ok (acc ++ rest), st')
      /\ coherent net st'
      /\ searchCache st' = searchCache st.
Proof.
  induction n as [|n IH]; intros i acc rest st Hst Hrest; simpl in *.
  - injection Hrest as <-. exists st. rewrite app_nil_r. auto.
  - destruct (served net (chunkPath i)) as [data|] eqn:Hs; [|discriminate].
    destruct (chunksFrom net n (i + 1)%Z) as [rest'|] eqn:Hr; [|discriminate].
    injection Hrest as <-.
    destruct (fetchJson_coherent net (chunkPath i) data st Hst Hs)
      as (st1 & E1 & Hst1 & Hsc1).
    destruct (IH (i + 1)%Z (acc ++ entries (asChunk V data)) rest' st1
                 Hst1 Hr) as (st2 & E2 & Hst2 & Hsc2).
    exists st2. unfold bind. rewrite E1, E2, <- app_assoc.
    split; [reflexivity|]. split; [exact Hst2|]. congruence.
Qed.

(** The global branch of [getSearchEntries] on coherent caches: it
    returns the list that the manifest and the chunks define. *)
Lemma getAllEntries_coherent (net : Net json) (es : list SearchEntry)
    (st : State) :
  coherent net st -> manifestChunks net = Some es ->
  exists st', getAllEntries net st = (Ok es, st') /\ coherent net st'.
Proof.
  intros Hst Hall. pose proof Hall as Hall'. unfold manifestChunks in Hall.
  destruct (served net manifestPath) as [manifest|] eqn:Hm; [|discriminate].
  destruct (fetchJson_coherent net manifestPath manifest st Hst Hm)
    as (st1 & E1 & Hst1 & Hsc1).
  unfold getAllEntries, bind, gets. rewrite E1. unfold JSMap.has.
  destruct (JSMap.get allKey (searchCache st1)) as [es'|] eqn:Hget; simpl.
  - unfold cachedEntries, bind, gets, ret. rewrite Hget.
    destruct Hst1 as [Hc Ha]. apply get_in, Ha in Hget.
    rewrite Hall' in Hget. injection Hget as <-.
    exists st1. split; [reflexivity|]. split; assumption.
  - destruct (chunkLoop_coherent net _ 1%Z [] es st1 Hst1 Hall)
      as (st2 & E2 & Hst2 & Hsc2).
    rewrite E2. simpl. unfold cachedEntries, bind, gets, modify, ret. simpl.
    rewrite get_set_same. eexists. split; [reflexivity|].
    destruct Hst2 as [Hc Ha]. split; [exact Hc|]. simpl.
    intros es' Hin. apply in_set in Hin. destruct Hin as [[_ ->]|Hin]; auto.
Qed.

Lemma chunksFrom_served (net : Net json) (chunkOf : Z -> json) (k : nat) :
  forall i : Z,
    (forall j, (i <= j < i + Z.of_nat k)%Z ->
               served net (chunkPath j) = Some (chunkOf j)) ->
    chunksFrom net k i
    = Some (flat_map (fun j => entries (asChunk V (chunkOf j))) (upFrom i k)).
Proof.
  induction k as [|k IH]; intros i Hserved; simpl; [reflexivity|].
  rewrite (Hserved i) by lia.
  rewrite (IH (i + 1)%Z); [reflexivity|].
  intros j Hj. apply Hserved. lia.
Qed.

(** ** Pages of matches *)

(** [filter] keeps the order of what it keeps. *)
Lemma filter_subsequence {A : Type} (f : A -> bool) (l : list A) :
  subsequence (filter f l) l.
Proof.
  induction l as [|x l IH]; simpl; [constructor|].
  destruct (f x); constructor; exact IH.
Qed.

Lemma slice_page {A : Type} (l : list A) (page pageSize : Z) :
  (1 <= page)%Z -> (0 < pageSize)%Z ->
  slice l ((page - 1) * pageSize) ((page - 1) * pageSize + pageSize)
  = firstn (Z.to_nat pageSize) (skipn (Z.to_nat ((page - 1) * pageSize)) l).
Proof.
  intros Hpage Hsize. unfold slice.
  set (start := ((page - 1) * pageSize)%Z).
  assert (0 <= start)%Z as Hstart by (subst start; nia).
  destruct (start <? 0)%Z eqn:E1; [apply Z.ltb_lt in E1; lia|].
  destruct (start + pageSize <? 0)%Z eqn:E2; [apply Z.ltb_lt in E2; lia|].
  destruct (Z_lt_le_dec start (Z.of_nat (length l))) as [Hlt|Hge].
  - rewrite (Z.min_l start) by lia.
    destruct (Z_le_gt_dec (start + pageSize) (Z.of_nat (length l)))
      as [Hfit|Hcut].
    + rewrite Z.min_l by lia. f_equal. lia.
    + rewrite Z.min_r by lia.
      rewrite !firstn_all2; [reflexivity| |]; rewrite length_skipn; lia.
  - rewrite !Z.min_r by lia. rewrite Z.sub_diag. simpl.
    rewrite skipn_all2 by lia. rewrite firstn_nil. reflexivity.
Qed.

Lemma slice_page_zero {A : Type} (l : list A) (pageSize : Z) :
  (0 < pageSize)%Z ->
  slice l ((0 - 1) * pageSize) ((0 - 1) * pageSize + pageSize) = [].
Proof.
  intros Hsize. unfold slice.
  replace ((0 - 1) * pageSize + pageSize)%Z with 0%Z by lia.
  destruct ((0 - 1) * pageSize <? 0)%Z eqn:E; [|apply Z.ltb_ge in E; lia].
  change (0 <? 0)%Z with false. cbv iota.
  set (len := Z.of_nat (length l)).
  assert (Z.to_nat (Z.min 0 len - Z.max (len + (0 - 1) * pageSize) 0) = 0%nat)
    as -> by lia.
  reflexivity.
Qed.

Lemma ceil_div_spec (total pageSize : Z) :
  (0 < pageSize)%Z ->
  exists pages,
    Math_ceil_div total pageSize = Num pages
    /\ ((pages - 1) * pageSize < total <= pages * pageSize)%Z.
Proof.
  intros Hsize. unfold Math_ceil_div.
  destruct (pageSize =? 0)%Z eqn:E; [apply Z.eqb_eq in E; lia|].
  eexists. split; [reflexivity|].
  pose proof (Z.div_mod (- total) pageSize ltac:(lia)) as Hdm.
  pose proof (Z.mod_pos_bound (- total) pageSize Hsize) as Hb.
  nia.
Qed.

(** C2 (as amended). In the global scope, after any history of calls
    against the same content, with a manifest and the chunks 1 to
    [totalChunks] served, a query that is not blank gives: the searched
    entry list is the concatenation of the chunks 1, 2, ..., [totalChunks]
    in ascending order; [total] is the number of entries of that list
    whose lower-cased title contains the lower-cased query, the matches
    being those entries in their order in the list; [totalPages] is
    [ceil(total / pageSize)]; for a page from 1 on, [items] are the videos
    of the matches from position [(page - 1) * pageSize] on, [pageSize] of
    them at most, so [min(pageSize, total - pageSize * (page - 1))] of
    them when [page <= totalPages] and none beyond; page 0 gives none. *)
Theorem global_search_result
    (net : Net json) (calls : list Call)
    (query : jsstring) (category playlistId : option jsstring)
    (opage opageSize : option Z)
    (manifest : json) (chunkOf : Z -> json) :
  let st := run_static net calls initial in
  let n := totalChunks (asManifest V manifest) in
  let page := optPage opage in
  let pageSize := optPageSize opageSize in
  let all :=
    flat_map (fun i => entries (asChunk V (chunkOf i))) (chunkNumbers n) in
  let matches :=
    filter (fun e => includes (toLowerCase (e_t e)) (toLowerCase query)) all in
  forallb isWhiteSpace query = false ->
  scopePath category playlistId = Ok None ->
  served net manifestPath = Some manifest ->
  (forall i, (1 <= i <= n)%Z -> served net (chunkPath i) = Some (chunkOf i)) ->
  (0 < pageSize)%Z ->
  (0 <= page)%Z ->
  exists vp pages,
    fst (getSearchEntries net category playlistId st) = Ok all
    /\ fst (search net query
              (Some (mkSearchOptions category playlistId opage opageSize)) st)
       = Ok vp
    /\ vp_total vp = Z.of_nat (length matches)
    /\ (forall e, In e matches <->
                  In e all
                  /\ exists pre post,
                       toLowerCase (e_t e) = pre ++ toLowerCase query ++ post)
    /\ subsequence matches all
    /\ vp_page vp = page /\ vp_pageSize vp = pageSize
    /\ vp_totalPages vp = Num pages
    /\ ((pages - 1) * pageSize < vp_total vp <= pages * pageSize)%Z
    /\ ((1 <= page)%Z ->
        vp_items vp
        = map entryVideo
            (firstn (Z.to_nat pageSize)
                    (skipn (Z.to_nat ((page - 1) * pageSize)) matches)))
    /\ ((1 <= page <= pages)%Z ->
        Z.of_nat (length (vp_items vp))
        = Z.min pageSize (vp_total vp - pageSize * (page - 1)))
    /\ (page = 0%Z \/ (pages < page)%Z -> vp_items vp = []).
Proof.
  intros st n page pageSize all matches Hq Hscope Hm Hchunks Hsize Hpage.
  assert (coherent net st) as Hst
    by (apply run_static_coherent, initial_coherent).
  assert (manifestChunks net = Some all) as Hall.
  { unfold manifestChunks. rewrite Hm. apply chunksFrom_served.
    intros j Hj. apply Hchunks. fold n. lia. }
  destruct (getAllEntries_coherent net all st Hst Hall) as (st' & Hrun & _).
  assert (getSearchEntries net category playlistId st = (Ok all, st'))
    as Hentries.
  { unfold getSearchEntries. rewrite Hscope. exact Hrun. }
  destruct (ceil_div_spec (Z.of_nat (length matches)) pageSize Hsize)
    as (pages & Hceil & Hpages).
  assert (trim query <> []) as Htrim.
  { intros E. apply trim_nil in E. congruence. }
  eexists _, pages. split; [rewrite Hentries; reflexivity|].
  split.
  { unfold search. simpl.
    destruct (trim query) as [|ch s]; [contradiction|]. simpl.
    unfold bind. rewrite Hentries. reflexivity. }
  simpl. fold page pageSize.
  change (filter (titleMatches (toLowerCase query)) all) with matches.
  split; [reflexivity|]. split.
  { intros e. unfold matches. rewrite filter_In, includes_spec. reflexivity. }
  split; [apply filter_subsequence|].
  split; [reflexivity|]. split; [reflexivity|]. split; [exact Hceil|].
  split; [exact Hpages|].
  clearbody page pageSize matches. clear Hceil.
  split; [|split].
  - intros H1. rewrite slice_page by lia. reflexivity.
  - intros [H1 Hle]. rewrite slice_page by lia.
    rewrite length_map, length_firstn, length_skipn.
    assert (0 <= (page - 1) * pageSize < Z.of_nat (length matches))%Z
      by nia.
    replace (pageSize * (page - 1))%Z with ((page - 1) * pageSize)%Z by lia.
    lia.
  - intros [H0 | Hgt].
    + rewrite H0. rewrite slice_page_zero by lia. reflexivity.
    + assert (0 <= pages)%Z by nia.
      rewrite slice_page by lia.
      assert (Z.of_nat (length matches) <= (page - 1) * pageSize)%Z
        as Hskip by nia.
      rewrite skipn_all2; [rewrite firstn_nil; reflexivity|].
      revert Hskip. generalize ((page - 1) * pageSize)%Z. intros. lia.
Qed.

(** ** Reuse of a loaded search scope *)

(** A category or playlist scope that is loaded is answered from the
    search-scope cache: no fetch, no change of state. *)
Lemma scoped_search_reuses_cache
    (net : Net json) (category playlistId : option jsstring)
    (path : jsstring) (es : list SearchEntry) (st : State) :
  scopePath category playlistId = Ok (Some path) ->
  JSMap.get path (searchCache st) = Some es ->
  getSearchEntries net category playlistId st = (Ok es, st).
Proof.
  intros Hscope Hget. unfold getSearchEntries. rewrite Hscope.
  unfold getScopeEntries, cachedEntries, bind, gets, JSMap.has.
  rewrite Hget. simpl. rewrite Hget. reflexivity.
Qed.

(** The global scope asks [fetchJson] for the manifest before it looks at
    the search-scope cache: with the entry list loaded, the call still
    goes through the bounded cache for [/search/manifest.json], and
    issues a fetch when the manifest is not there. *)
Lemma global_search_asks_for_manifest
    (net : Net json) (es : list SearchEntry) (st : State) :
  JSMap.get allKey (searchCache st) = Some es ->
  JSMap.get manifestPath (cache st) = None ->
  requests (snd (getAllEntries net st))
  = requests st ++ [resourceURL manifestPath]
  /\ (served net manifestPath = None ->
      exists e, fst (getAllEntries net st) = Throw e).
Proof.
  intros Hall Hmiss. unfold getAllEntries, bind.
  destruct (fetchJson_cases net manifestPath st)
    as [(v & Hget & _) | [(v & _ & Hs & E) | (e & _ & Hs & E)]];
    [congruence | |]; rewrite E; simpl.
  - unfold gets, JSMap.has, cachedEntries, bind, gets. simpl.
    rewrite Hall. simpl. rewrite Hall. simpl. split; [reflexivity|].
    congruence.
  - split; [reflexivity|]. intros _. exists e. reflexivity.
Qed.

(* ================================================================== *)
(** * Further properties of the module                                 *)
(* ================================================================== *)

(** ** The cache as a store *)

Lemma get_set_other {A : Type} (k key : jsstring) (v : A) (m : JSMap.t A) :
  k <> key -> JSMap.get k (JSMap.set key v m) = JSMap.get k m.
Proof.
  intros Hne. induction m as [|[k' v'] m IH]; simpl.
  - destruct (str_eqb key k) eqn:E; [|reflexivity].
    apply str_eqb_eq in E. congruence.
  - destruct (str_eqb k' key) eqn:E; simpl.
    + apply str_eqb_eq in E. subst k'.
      destruct (str_eqb key k) eqn:E'; [|reflexivity].
      apply str_eqb_eq in E'. congruence.
    + destruct (str_eqb k' k); [reflexivity | exact IH].
Qed.

Lemma get_cacheSet_same (key : jsstring) (value : json) (c : JSMap.t json) :
  JSMap.get key (cacheSet key value c) = Some value.
Proof. unfold cacheSet. apply get_set_same. Qed.

(** A load that succeeded is remembered: the same path is then answered
    with the same value from the cache, whatever the network does, with
    no request and no change of state. *)
Theorem fetchJson_memoises
    (net net' : Net json) (path : jsstring) (data : json) (st st1 : State) :
  fetchJson net path st = (Ok data, st1) ->
  fetchJson net' path st1 = (Ok data, st1)
  /\ JSMap.get path (cache st1) = Some data.
Proof.
  intros Hrun.
  assert (JSMap.get path (cache st1) = Some data) as Hget.
  { destruct (fetchJson_cases net path st)
      as [(v & Hget & E) | [(v & _ & _ & E) | (e & _ & _ & E)]];
      rewrite E in Hrun; try discriminate; injection Hrun as <- <-.
    - exact Hget.
    - simpl. apply get_cacheSet_same. }
  split; [apply fetchJson_hit|]; exact Hget.
Qed.

(** A load that failed is not remembered: the three caches are as they
    were, the error of a response that is not [ok] is
    [Failed to fetch {path}: {status}], and the next load of the path
    asks the network again and succeeds if the resource is served by
    then. *)
Theorem fetchJson_failure_is_retried
    (net net' : Net json) (path : jsstring) (e : error) (data : json)
    (st : State) :
  fst (fetchJson net path st) = Throw e ->
  served net' path = Some data ->
  let st1 := snd (fetchJson net path st) in
  cache st1 = cache st
  /\ indexCache st1 = indexCache st
  /\ searchCache st1 = searchCache st
  /\ (forall res, net (resourceURL path) = Some res -> res_ok res = false ->
        e = Error (lit "Failed to fetch " ++ path ++ lit ": "
                     ++ Number_toString (res_status res)))
  /\ fst (fetchJson net' path st1) = Ok data
  /\ requests (snd (fetchJson net' path st1))
     = requests st ++ [resourceURL path; resourceURL path].
Proof.
  intros Hthrow Hserved.
  destruct (fetchJson_throws net path st e Hthrow) as (Hget & Hs & E).
  intros st1. subst st1. rewrite E. simpl.
  split; [reflexivity|]. split; [reflexivity|]. split; [reflexivity|].
  split.
  - intros res Hres Hok.
    rewrite (fetchJson_miss net path st Hget) in E.
    unfold settle in E. rewrite Hres, Hok in E. simpl in E.
    unfold throw in E. injection E as <-. reflexivity.
  - set (st1 := with_request (resourceURL path) st).
    assert (JSMap.get path (cache st1) = None) as Hget1 by exact Hget.
    rewrite (fetchJson_miss net' path st1 Hget1).
    rewrite (settle_served net' path _ data Hserved). simpl.
    rewrite <- app_assoc. split; reflexivity.
Qed.

(** With room left, [cacheSet] evicts nothing: the key reads back its
    value and every other key reads as before. *)
Theorem cacheSet_with_room
    (key : jsstring) (value : json) (c : JSMap.t json) :
  (JSMap.size c < MAX_CACHE_SIZE)%Z ->
  JSMap.get key (cacheSet key value c) = Some value
  /\ (forall k, k <> key ->
                JSMap.get k (cacheSet key value c) = JSMap.get k c)
  /\ (JSMap.has key c = true ->
      JSMap.keys (cacheSet key value c) = JSMap.keys c)
  /\ (JSMap.has key c = false ->
      cacheSet key value c = c ++ [(key, value)]).
Proof.
  intros Hroom.
  assert (cacheSet key value c = JSMap.set key value c) as ->.
  { unfold cacheSet.
    destruct (MAX_CACHE_SIZE <=? JSMap.size c)%Z eqn:E; [|reflexivity].
    apply Z.leb_le in E. lia. }
  split; [apply get_set_same|]. split; [|split].
  - intros k Hne. apply get_set_other. exact Hne.
  - unfold JSMap.has. destruct (JSMap.get key c) as [x|] eqn:Hget;
      [|discriminate].
    intros _. apply (set_present_keys key value x c Hget).
  - intros Hhas. apply has_get in Hhas. apply set_absent. exact Hhas.
Qed.

(** [cacheSet] evicts on a full cache without looking whether the key is
    already there (two fetches of one path in flight together end this
    way). When the key is the oldest one, its entry moves to the newest
    place; otherwise the oldest entry goes although no entry is added,
    and the cache is left with 99 entries. *)
Theorem cacheSet_full_and_present
    (key : jsstring) (value old : json) (c : JSMap.t json) :
  cache_ok c ->
  JSMap.size c = MAX_CACHE_SIZE ->
  JSMap.get key c = Some old ->
  exists oldest v rest,
    c = (oldest, v) :: rest
    /\ (oldest = key -> cacheSet key value c = rest ++ [(key, value)])
    /\ (oldest <> key ->
        JSMap.size (cacheSet key value c) = 99%Z
        /\ JSMap.get oldest (cacheSet key value c) = None
        /\ JSMap.get key (cacheSet key value c) = Some value
        /\ JSMap.keys (cacheSet key value c) = JSMap.keys rest).
Proof.
  intros Hok Hfull Hget.
  destruct (cacheSet_cases key value c Hok)
    as [[Hlt _] | [_ (k & v & rest & Hc & Hset)]]; [lia|].
  exists k, v, rest. split; [exact Hc|]. rewrite Hset.
  destruct Hok as (_ & _ & Hnd). rewrite Hc in Hnd, Hget, Hfull.
  simpl in Hnd, Hget. apply NoDup_cons_iff in Hnd. destruct Hnd as [Hnot Hnd].
  split.
  - intros ->. apply set_absent. apply get_none_keys. exact Hnot.
  - intros Hne. apply str_eqb_neq in Hne. rewrite Hne in Hget.
    pose proof (set_present_keys key value old rest Hget) as Hkeys.
    split; [|split; [|split]].
    + unfold JSMap.size, MAX_CACHE_SIZE in *. simpl length in Hfull.
      rewrite <- (length_map fst (JSMap.set key value rest)).
      change (map fst (JSMap.set key value rest))
        with (JSMap.keys (JSMap.set key value rest)).
      rewrite Hkeys. unfold JSMap.keys. rewrite length_map. lia.
    + apply get_none_keys. rewrite Hkeys. exact Hnot.
    + apply get_set_same.
    + exact Hkeys.
Qed.

(** The eviction test [if (firstKey)] takes the empty string for no key:
    on a full cache whose oldest key is empty nothing is evicted, and the
    cache grows past its maximum. (No path that the module builds is
    empty.) *)
Theorem cacheSet_empty_oldest_key
    (key : jsstring) (value v0 : json) (rest : JSMap.t json) :
  (MAX_CACHE_SIZE <= JSMap.size (([], v0) :: rest))%Z ->
  JSMap.get key (([], v0) :: rest) = None ->
  cacheSet key value (([], v0) :: rest)
  = (([], v0) :: rest) ++ [(key, value)]
  /\ (MAX_CACHE_SIZE < JSMap.size (cacheSet key value (([], v0) :: rest)))%Z.
Proof.
  intros Hfull Hget.
  assert (cacheSet key value (([], v0) :: rest)
          = (([], v0) :: rest) ++ [(key, value)]) as E.
  { unfold cacheSet. pose proof Hfull as Hleb. apply Z.leb_le in Hleb.
    rewrite Hleb. simpl truthy. cbv iota. apply set_absent. exact Hget. }
  split; [exact E|]. rewrite E. unfold JSMap.size in *.
  rewrite length_app. simpl length in *.
  unfold MAX_CACHE_SIZE, jsstring in *. lia.
Qed.

(** ** Calls in two parts *)

Lemma fetchJson_begin_spec (net : Net json) (path : jsstring) (st : State) :
  fetchJson_begin net path st
  = (Ok (pendingOf net path (cache st)),
     if JSMap.has path (cache st) then st
     else with_request (resourceURL path) st).
Proof.
  unfold fetchJson_begin, pendingOf, JSMap.has, bind, gets.
  destruct (JSMap.get path (cache st)); reflexivity.
Qed.

Lemma fetchJson_end_spec (path : jsstring) (w : pending) (st : State) :
  fst (fetchJson_end path w st) = outcomeOf path w
  /\ requests (snd (fetchJson_end path w st)) = requests st
  /\ indexCache (snd (fetchJson_end path w st)) = indexCache st
  /\ searchCache (snd (fetchJson_end path w st)) = searchCache st.
Proof.
  destruct w as [v|[res|]]; simpl; auto.
  unfold settle. destruct (res_ok res); simpl; auto.
  destruct (res_json res); simpl; auto.
Qed.

Lemma fetchJson_outcome (net : Net json) (path : jsstring) (st : State) :
  fst (fetchJson net path st)
  = outcomeOf path (pendingOf net path (cache st)).
Proof.
  unfold fetchJson, pendingOf, bind, gets.
  destruct (JSMap.get path (cache st)) as [v|]; [reflexivity|].
  unfold fetch. simpl.
  destruct (net (resourceURL path)) as [res|]; [|reflexivity].
  unfold settle. destruct (res_ok res); simpl; [|reflexivity].
  destruct (res_json res); reflexivity.
Qed.

Lemma begin_keeps_cache (path : jsstring) (st : State) :
  cache (if JSMap.has path (cache st) then st
         else with_request (resourceURL path) st) = cache st.
Proof. destruct (JSMap.has path (cache st)); reflexivity. Qed.

(** ** The detail and listing queries *)

(** [getVideo] does not throw, whatever the id, the state and the
    network. It gives [null] exactly when the detail is neither cached
    nor served, and the detail that [fetchJson] would give otherwise. *)
Theorem getVideo_never_throws
    (net : Net json) (id : jsstring) (st : State) :
  exists r,
    fst (getVideo net id st) = Ok r
    /\ (r = None <->
        JSMap.get (videoPath id) (cache st) = None
        /\ served net (videoPath id) = None)
    /\ (forall data, fst (fetchJson net (videoPath id) st) = Ok data ->
                     r = Some (asVideoDetails V data)).
Proof.
  unfold getVideo, try_catch, bind.
  destruct (fetchJson_cases net (videoPath id) st)
    as [(v & Hget & ->) | [(v & Hget & Hs & ->) | (e & Hget & Hs & ->)]];
    simpl; eexists; (split; [reflexivity|]); split.
  - split; [discriminate|]. intros [H _]. congruence.
  - intros data H. injection H as <-. reflexivity.
  - split; [discriminate|]. intros [_ H]. congruence.
  - intros data H. injection H as <-. reflexivity.
  - split; auto.
  - intros data H. discriminate.
Qed.

(** [getVideos] remembers a fragment that loaded and nothing else. After
    a call whose fetch succeeded, the same listing is answered from the
    cache with no request, whatever the network does; after a call that
    degraded to the empty page, the next call asks the network again and
    returns the fragment if it is served by then. *)
Theorem getVideos_caches_only_success
    (net net' : Net json) (options : ListingOptions) (path : jsstring)
    (st : State) :
  listingPath (optPage (o_page options)) (optSort (o_sort options))
              (o_category options) (o_playlistId options) = Ok path ->
  let st1 := snd (getVideos net options st) in
  (forall data,
      fst (fetchJson net path st) = Ok data ->
      fst (getVideos net options st) = Ok (asVideoPage V data)
      /\ getVideos net' options st1 = (Ok (asVideoPage V data), st1))
  /\ (forall e data,
        fst (fetchJson net path st) = Throw e ->
        served net' path = Some data ->
        fst (getVideos net options st)
        = Ok (emptyListing (optPage (o_page options)))
        /\ fst (getVideos net' options st1) = Ok (asVideoPage V data)
        /\ requests (snd (getVideos net' options st1))
           = requests st ++ [resourceURL path; resourceURL path]).
Proof.
  intros Hpath st1. subst st1. unfold getVideos. rewrite Hpath.
  unfold try_catch, bind.
  destruct (fetchJson_cases net path st)
    as [(v & Hget & E) | [(v & Hget & Hs & E) | (e0 & Hget & Hs & E)]];
    rewrite E; simpl; split.
  - intros data H. injection H as <-.
    rewrite (fetchJson_hit net' path st v Hget). auto.
  - intros e data H. discriminate.
  - intros data H. injection H as <-.
    rewrite (fetchJson_hit net' path _ v); [auto|].
    simpl. apply get_cacheSet_same.
  - intros e data H. discriminate.
  - intros data H. discriminate.
  - intros e data _ Hserved.
    set (st1 := with_request (resourceURL path) st).
    assert (JSMap.get path (cache st1) = None) as Hget1 by exact Hget.
    rewrite (fetchJson_miss net' path st1 Hget1).
    rewrite (settle_served net' path _ data Hserved). simpl.
    rewrite <- app_assoc. auto.
Qed.

(** ** The composite loaders *)

Lemma neighbour_begin_requests (net : Net json) (id : option jsstring)
    (st : State) :
  requests (snd (neighbour_begin net id st))
  = requests st ++ neighbourRequest (cache st) id
  /\ cache (snd (neighbour_begin net id st)) = cache st.
Proof.
  destruct id as [[|ch s]|]; simpl; try (rewrite app_nil_r; auto).
  unfold bind. rewrite fetchJson_begin_spec. simpl.
  destruct (JSMap.has (videoPath (ch :: s)) (cache st)); simpl;
    [rewrite app_nil_r|]; auto.
Qed.

Lemma neighbour_end_requests (w : option (jsstring * pending)) (st : State) :
  requests (snd (neighbour_end w st)) = requests st.
Proof.
  destruct w as [[id [v|[res|]]]|]; simpl;
    unfold try_catch, bind, settle, throw, ret, modify; simpl;
    try reflexivity.
  destruct (res_ok res); simpl; [|reflexivity].
  destruct (res_json res); reflexivity.
Qed.

(** A video that is not there. When the detail of the requested id is
    neither in the cache nor served (the fetch is rejected, the response
    is not [ok], or its body is not JSON), [loadVideoPage] gives [null],
    whichever neighbour would have settled first; by then it has made the
    one request for that detail and nothing else: the three caches are as
    they were and no neighbour has been asked for. *)
Theorem loadVideoPage_missing_video
    (net : Net json) (videoId : jsstring) (prevFirst : bool) (st : State) :
  JSMap.get (videoPath videoId) (cache st) = None ->
  served net (videoPath videoId) = None ->
  loadVideoPage net videoId prevFirst st
  = (Ok None, with_request (resourceURL (videoPath videoId)) st).
Proof.
  intros Hget Hserved.
  unfold loadVideoPage, bind, getVideo, try_catch, bind.
  destruct (fetchJson_cases net (videoPath videoId) st)
    as [(v & Hget' & _) | [(v & _ & Hs & _) | (e & _ & _ & ->)]];
    [congruence | congruence | reflexivity].
Qed.

(** The requests of [loadVideoPage] once the detail is there: one for
    the previous video and one for the next, in that order, each only
    for an id that is not falsy and a detail that is not cached. Both are
    decided on the cache as the detail load left it, before either
    settles: a video that is both previous and next and is not cached is
    asked for twice. *)
Theorem loadVideoPage_requests
    (net : Net json) (videoId : jsstring) (prevFirst : bool)
    (st st1 : State) (detail : VideoDetails) :
  getVideo net videoId st = (Ok (Some detail), st1) ->
  requests (snd (loadVideoPage net videoId prevFirst st))
  = requests st1
      ++ neighbourRequest (cache st1) (nav_prev (nav detail))
      ++ neighbourRequest (cache st1) (nav_next (nav detail)).
Proof.
  intros Hrun.
  destruct (neighbour_begin_spec net (nav_prev (nav detail)) st1)
    as (wa & sta & Ha & _).
  destruct (neighbour_begin_spec net (nav_next (nav detail)) sta)
    as (wb & stb & Hb & _).
  destruct (neighbour_begin_requests net (nav_prev (nav detail)) st1)
    as [Hra Hca].
  destruct (neighbour_begin_requests net (nav_next (nav detail)) sta)
    as [Hrb _].
  rewrite Ha in Hra, Hca. rewrite Hb in Hrb. simpl in Hra, Hca, Hrb.
  unfold loadVideoPage, bind. rewrite Hrun.
  rewrite (promise_all_neighbours net _ _ prevFirst st1 sta stb wa wb Ha Hb).
  simpl.
  assert (requests (if prevFirst
                    then snd (neighbour_end wb (snd (neighbour_end wa stb)))
                    else snd (neighbour_end wa (snd (neighbour_end wb stb))))
          = requests stb) as ->.
  { destruct prevFirst; rewrite !neighbour_end_requests; reflexivity. }
  rewrite Hrb, Hra, Hca, app_assoc. reflexivity.
Qed.

Lemma getIndex_outcome (net : Net json) (st : State) :
  fst (getIndex net st)
  = match indexCache st with
    | Some i => Ok i
    | None =>
        match outcomeOf indexPath (pendingOf net indexPath (cache st)) with
        | Ok data => Ok (asSiteIndex V data)
        | Throw e => Throw e
        end
    end.
Proof.
  unfold getIndex, bind, gets. destruct (indexCache st); [reflexivity|].
  rewrite <- fetchJson_outcome.
  destruct (fetchJson net indexPath st) as [[data|e] s]; reflexivity.
Qed.

Lemma getVideos_outcome (net : Net json) (options : ListingOptions)
    (st : State) :
  fst (getVideos net options st)
  = match listingPath (optPage (o_page options)) (optSort (o_sort options))
                      (o_category options) (o_playlistId options) with
    | Throw e => Throw e
    | Ok path =>
        match outcomeOf path (pendingOf net path (cache st)) with
        | Ok data => Ok (asVideoPage V data)
        | Throw _ => Ok (emptyListing (optPage (o_page options)))
        end
    end.
Proof.
  unfold getVideos. destruct (listingPath _ _ _ _) as [path|e]; [|reflexivity].
  unfold try_catch, bind. rewrite <- fetchJson_outcome.
  destruct (fetchJson net path st) as [[data|e] s]; reflexivity.
Qed.

(** What [loadStudyHome] returns does not depend on which of its two
    branches settles first, and is what the two calls give when each runs
    alone from the same state: the index and the page when both return;
    otherwise the error of [getVideos] if it threw (it only throws before
    any fetch), else the error of [getIndex]. *)
Theorem loadStudyHome_result
    (net : Net json) (options : ListingOptions) (indexFirst : bool)
    (st : State) :
  fst (loadStudyHome net options indexFirst st)
  = match fst (getVideos net options st), fst (getIndex net st) with
    | Throw e, _ => Throw e
    | Ok _, Throw e => Throw e
    | Ok videos, Ok index => Ok (mkStudyHomeData index videos)
    end.
Proof.
  rewrite getIndex_outcome, getVideos_outcome.
  unfold loadStudyHome, Promise_all2, attempt, bind.
  assert (exists wa sa,
             getIndex_begin net st = (Ok wa, sa) /\ cache sa = cache st
             /\ forall s,
                  fst (getIndex_end wa s)
                  = match indexCache st with
                    | Some i => Ok i
                    | None =>
                        match outcomeOf indexPath
                                (pendingOf net indexPath (cache st)) with
                        | Ok data => Ok (asSiteIndex V data)
                        | Throw e => Throw e
                        end
                    end) as (wa & sa & -> & Hca & Hend).
  { unfold getIndex_begin, bind, gets. destruct (indexCache st) as [i|].
    - eexists _, _. split; [reflexivity|]. split; [reflexivity|].
      intros s. reflexivity.
    - rewrite fetchJson_begin_spec. eexists _, _.
      split; [reflexivity|]. split; [apply begin_keeps_cache|].
      intros s. simpl. unfold bind.
      destruct (fetchJson_end_spec indexPath
                  (pendingOf net indexPath (cache st)) s) as [Hf _].
      destruct (fetchJson_end indexPath _ s) as [[data|e] s'];
        simpl in Hf; rewrite <- Hf; reflexivity. }
  unfold getVideos_begin.
  destruct (listingPath _ _ _ _) as [path|e]; simpl.
  - unfold bind. rewrite fetchJson_begin_spec. rewrite Hca.
    set (w := pendingOf net path (cache st)).
    set (wb := (optPage (o_page options), path, w)).
    assert (forall s,
               fst (getVideos_end wb s)
               = Ok match outcomeOf path w with
                    | Ok data => asVideoPage V data
                    | Throw _ => emptyListing (optPage (o_page options))
                    end) as Hvend.
    { intros s. unfold wb, getVideos_end, try_catch, bind.
      destruct (fetchJson_end_spec path w s) as [Hf _].
      destruct (fetchJson_end path w s) as [[data|e] s'];
        simpl in Hf; rewrite <- Hf; reflexivity. }
    clearbody wb. unfold ret at 1. cbv beta iota.
    destruct indexFirst.
    + match goal with
      | |- context [getIndex_end wa ?s] =>
          pose proof (Hend s) as H1;
          destruct (getIndex_end wa s) as [oa s1]
      end.
      simpl in H1. subst oa.
      pose proof (Hvend s1) as H2.
      destruct (getVideos_end wb s1) as [ob s2]. simpl in H2. subst ob.
      destruct (indexCache st) as [i|];
        [|destruct (outcomeOf indexPath _)];
        destruct (outcomeOf path w); reflexivity.
    + match goal with
      | |- context [getVideos_end wb ?s] =>
          pose proof (Hvend s) as H2;
          destruct (getVideos_end wb s) as [ob s1]
      end.
      simpl in H2. subst ob.
      pose proof (Hend s1) as H1.
      destruct (getIndex_end wa s1) as [oa s2]. simpl in H1. subst oa.
      destruct (indexCache st) as [i|];
        [|destruct (outcomeOf indexPath _)];
        destruct (outcomeOf path w); reflexivity.
  - destruct (getIndex_end wa sa) as [oa s1]. reflexivity.
Qed.

(** ** The search-scope cache over time *)

Lemma extends_refl {A : Type} (m : JSMap.t A) : extends m m.
Proof. intros k v H. exact H. Qed.

Lemma extends_trans {A : Type} (m1 m2 m3 : JSMap.t A) :
  extends m1 m2 -> extends m2 m3 -> extends m1 m3.
Proof. intros H12 H23 k v H. apply H23, H12, H. Qed.

Lemma extends_set_absent {A : Type} (key : jsstring) (v : A) (m : JSMap.t A) :
  JSMap.get key m = None -> extends m (JSMap.set key v m).
Proof.
  intros Hnone k x Hget.
  destruct (str_eqb k key) eqn:E.
  - apply str_eqb_eq in E. subst k. congruence.
  - apply str_eqb_neq in E. rewrite get_set_other; assumption.
Qed.

Lemma fetchJson_searchCache (net : Net json) (path : jsstring) (st : State) :
  searchCache (snd (fetchJson net path st)) = searchCache st.
Proof.
  destruct (fetchJson_cases net path st)
    as [(v & _ & ->) | [(v & _ & _ & ->) | (e & _ & _ & ->)]]; reflexivity.
Qed.

Lemma chunkLoop_searchCache (net : Net json) (n : nat) :
  forall (i : Z) (acc : list SearchEntry) (st : State),
    searchCache (snd (chunkLoop net n i acc st)) = searchCache st.
Proof.
  induction n as [|n IH]; intros i acc st; simpl; [reflexivity|].
  unfold bind. pose proof (fetchJson_searchCache net (chunkPath i) st) as H.
  destruct (fetchJson net (chunkPath i) st) as [[data|e] s]; simpl in H.
  - rewrite IH. exact H.
  - exact H.
Qed.

(** What a run of the global branch leaves in the search-scope cache:
    the list it returns under ["__all__"], and nothing new when it
    throws (no partial list is stored). *)
Lemma getAllEntries_searchCache (net : Net json) (st : State) :
  extends (searchCache st) (searchCache (snd (getAllEntries net st)))
  /\ (forall e, fst (getAllEntries net st) = Throw e ->
                searchCache (snd (getAllEntries net st)) = searchCache st)
  /\ (forall es, fst (getAllEntries net st) = Ok es ->
                 JSMap.get allKey (searchCache (snd (getAllEntries net st)))
                 = Some es).
Proof.
  unfold getAllEntries, bind.
  pose proof (fetchJson_searchCache net manifestPath st) as Hm.
  destruct (fetchJson net manifestPath st) as [[manifest|e] s1];
    simpl in Hm.
  2:{ simpl. rewrite Hm. split; [apply extends_refl|].
      split; [reflexivity | discriminate]. }
  unfold gets, JSMap.has.
  destruct (JSMap.get allKey (searchCache s1)) as [known|] eqn:Hget; simpl.
  - unfold cachedEntries, bind, gets. rewrite Hget. simpl. rewrite Hm.
    split; [apply extends_refl|]. split; [reflexivity|].
    intros es H. injection H as <-. rewrite <- Hm. exact Hget.
  - pose proof (chunkLoop_searchCache net
                  (Z.to_nat (totalChunks (asManifest V manifest))) 1%Z [] s1)
      as Hl.
    destruct (chunkLoop net _ 1%Z [] s1) as [[es|e] s2]; simpl in Hl.
    + unfold modify, cachedEntries, bind, gets. simpl.
      rewrite get_set_same. simpl. rewrite Hl, Hm in *.
      split; [apply extends_set_absent; exact Hget|].
      split; [discriminate|].
      intros es' H. injection H as <-. apply get_set_same.
    + simpl. rewrite Hl, Hm. split; [apply extends_refl|].
      split; [reflexivity | discriminate].
Qed.

Lemma getScopeEntries_extends (net : Net json) (path : jsstring) (st : State) :
  extends (searchCache st) (searchCache (snd (getScopeEntries net path st)))
  /\ exists es, fst (getScopeEntries net path st) = Ok es.
Proof.
  unfold getScopeEntries, bind, gets, JSMap.has.
  destruct (JSMap.get path (searchCache st)) as [known|] eqn:Hget; simpl.
  - unfold cachedEntries, bind, gets. rewrite Hget. simpl.
    split; [apply extends_refl | eexists; reflexivity].
  - unfold try_catch, bind.
    pose proof (fetchJson_searchCache net path st) as Hs.
    destruct (fetchJson net path st) as [[data|e] s1]; simpl in Hs.
    + unfold modify, cachedEntries, bind, gets. simpl.
      rewrite get_set_same. simpl. rewrite Hs.
      split; [apply extends_set_absent; exact Hget | eexists; reflexivity].
    + simpl. rewrite Hs. split; [apply extends_refl | eexists; reflexivity].
Qed.

Lemma getSearchEntries_extends (net : Net json)
    (category playlistId : option jsstring) (st : State) :
  extends (searchCache st)
          (searchCache (snd (getSearchEntries net category playlistId st))).
Proof.
  unfold getSearchEntries.
  destruct (scopePath category playlistId) as [[path|]|e].
  - apply getScopeEntries_extends.
  - apply getAllEntries_searchCache.
  - apply extends_refl.
Qed.

Lemma perform_extends (net : Net json) (call : Call) (st : State) :
  extends (searchCache st) (searchCache (perform net call st)).
Proof.
  assert (forall A (m : M A),
             keeps (fun s => searchCache s = searchCache st) anything m ->
             extends (searchCache st) (searchCache (snd (m st)))) as Hkeep.
  { intros A m Hm. destruct (Hm st eq_refl) as [-> _]. apply extends_refl. }
  assert (forall path,
             fetchable (fun s => searchCache s = searchCache st)
                       (fun _ _ => True) path) as Hfetch.
  { intros path. split; auto. }
  destruct call; simpl.
  - apply Hkeep.
    apply (keeps_getIndex net _ (fun _ _ => True)); auto.
  - apply Hkeep.
    apply (keeps_getVideos net _ (fun _ _ => True)); auto.
  - apply Hkeep.
    apply (keeps_getVideo net _ (fun _ _ => True)); auto.
  - unfold search. destruct (negb (truthy (trim query)));
      [apply extends_refl|].
    unfold bind.
    pose proof (getSearchEntries_extends net
                  (so_category (orNoOptions options))
                  (so_playlistId (orNoOptions options)) st) as H.
    destruct (getSearchEntries net _ _ st) as [[es|e] s]; exact H.
  - apply Hkeep.
    apply (keeps_loadStudyHome net _ (fun _ _ => True)); auto.
  - apply Hkeep.
    apply (keeps_loadVideoPage net _ (fun _ _ => True)); auto.
Qed.

(** No call ever removes or replaces an entry of the search-scope cache:
    a scope that is loaded stays loaded, with the same list, through any
    history of calls; and a category or playlist scope that is loaded is
    then searched with no request and no change of state, whatever the
    network does. *)
Theorem loaded_scope_is_permanent
    (calls : list (Net json * Call)) (key : jsstring)
    (es : list SearchEntry) (st : State) :
  JSMap.get key (searchCache st) = Some es ->
  JSMap.get key (searchCache (run calls st)) = Some es
  /\ (forall net category playlistId,
        scopePath category playlistId = Ok (Some key) ->
        getSearchEntries net category playlistId (run calls st)
        = (Ok es, run calls st)).
Proof.
  intros Hget.
  assert (JSMap.get key (searchCache (run calls st)) = Some es) as Hlater.
  { revert st Hget. induction calls as [|[net call] calls IH];
      intros st Hget; simpl; [exact Hget|].
    apply IH. apply (perform_extends net call st). exact Hget. }
  split; [exact Hlater|].
  intros net category playlistId Hscope.
  unfold getSearchEntries. rewrite Hscope.
  unfold getScopeEntries, cachedEntries, bind, gets, JSMap.has.
  rewrite Hlater. simpl. rewrite Hlater. reflexivity.
Qed.

(** In the global scope a failed load is not caught. With a query that
    is not blank: an error thrown by [getSearchEntries] is the error
    [search] throws, and that load has stored nothing in the search-scope
    cache (no partial list); and a manifest that is neither cached nor
    served makes [search] throw after the one request for it, the caches
    left as they were, even when the entry list is loaded. *)
Theorem global_search_failure_propagates
    (net : Net json) (query : jsstring)
    (category playlistId : option jsstring) (page pageSize : option Z)
    (st : State) :
  scopePath category playlistId = Ok None ->
  forallb isWhiteSpace query = false ->
  (forall e,
      fst (getSearchEntries net category playlistId st) = Throw e ->
      search net query
        (Some (mkSearchOptions category playlistId page pageSize)) st
      = (Throw e, snd (getSearchEntries net category playlistId st))
      /\ searchCache (snd (getSearchEntries net category playlistId st))
         = searchCache st)
  /\ (JSMap.get manifestPath (cache st) = None ->
      served net manifestPath = None ->
      exists e,
        search net query
          (Some (mkSearchOptions category playlistId page pageSize)) st
        = (Throw e, with_request (resourceURL manifestPath) st)).
Proof.
  intros Hscope Hq.
  assert (negb (truthy (trim query)) = false) as Htrim.
  { destruct (trim query) as [|ch s] eqn:Ht; [|reflexivity].
    apply trim_nil in Ht. congruence. }
  split.
  - intros e Hthrow. unfold search. simpl. rewrite Htrim. unfold bind.
    split.
    + destruct (getSearchEntries net category playlistId st) as [[es|e'] s];
        simpl in Hthrow; [discriminate|]. injection Hthrow as ->.
      reflexivity.
    + revert Hthrow. unfold getSearchEntries. rewrite Hscope.
      apply getAllEntries_searchCache.
  - intros Hmiss Hserved. unfold search. simpl. rewrite Htrim.
    unfold bind, getSearchEntries. rewrite Hscope.
    unfold getAllEntries, bind.
    destruct (fetchJson_cases net manifestPath st)
      as [(v & Hget & _) | [(v & _ & Hs & _) | (e & _ & _ & ->)]];
      [congruence | congruence |].
    exists e. reflexivity.
Qed.

(** ** Pages of a loaded scope *)

Lemma firstn_plus {A : Type} (n k : nat) (l : list A) :
  firstn (n + k) l = firstn n l ++ firstn k (skipn n l).
Proof.
  revert l. induction n as [|n IH]; intros l; simpl; [reflexivity|].
  destruct l as [|x l]; simpl.
  - rewrite firstn_nil. reflexivity.
  - rewrite IH. reflexivity.
Qed.

Lemma slices_from {A : Type} (l : list A) (pageSize : Z) (k : nat) :
  (0 < pageSize)%Z ->
  forall i : Z,
    (1 <= i)%Z ->
    flat_map (fun p => slice l ((p - 1) * pageSize)
                               ((p - 1) * pageSize + pageSize))
             (upFrom i k)
    = firstn (k * Z.to_nat pageSize)
             (skipn (Z.to_nat ((i - 1) * pageSize)) l).
Proof.
  intros Hsize. induction k as [|k IH]; intros i Hi; simpl; [reflexivity|].
  rewrite slice_page by lia. rewrite IH by lia. rewrite firstn_plus.
  f_equal. f_equal. rewrite skipn_skipn. f_equal.
  replace (i + 1 - 1)%Z with (i - 1 + 1)%Z by lia.
  rewrite Z.mul_add_distr_r, Z.mul_1_l.
  rewrite Z2Nat.inj_add by nia. lia.
Qed.

(** In a category or playlist scope that is loaded, [search] only reads:
    every page leaves the state as it is, and the pages 1 to
    [totalPages], one after the other, are the videos of all the matches,
    each once and in the order of the scope's list. *)
Theorem search_pages_partition
    (net : Net json) (query : jsstring)
    (category playlistId : option jsstring) (path : jsstring)
    (es : list SearchEntry) (pageSize : Z) (st : State) :
  scopePath category playlistId = Ok (Some path) ->
  JSMap.get path (searchCache st) = Some es ->
  forallb isWhiteSpace query = false ->
  (0 < pageSize)%Z ->
  exists pages,
    (forall p,
        snd (search net query
               (Some (mkSearchOptions category playlistId (Some p)
                                      (Some pageSize))) st) = st
        /\ exists vp,
             fst (search net query
                    (Some (mkSearchOptions category playlistId (Some p)
                                           (Some pageSize))) st) = Ok vp
             /\ vp_totalPages vp = Num pages)
    /\ flat_map
         (fun p =>
            itemsOf (fst (search net query
                            (Some (mkSearchOptions category playlistId
                                                   (Some p) (Some pageSize)))
                            st)))
         (upFrom 1 (Z.to_nat pages))
       = map entryVideo (filter (titleMatches (toLowerCase query)) es).
Proof.
  intros Hscope Hget Hq Hsize.
  set (matches := filter (titleMatches (toLowerCase query)) es).
  destruct (ceil_div_spec (Z.of_nat (length matches)) pageSize Hsize)
    as (pages & Hceil & Hpages).
  assert (forall p,
             search net query
               (Some (mkSearchOptions category playlistId (Some p)
                                      (Some pageSize))) st
             = (Ok (mkVideoPage
                      (map entryVideo
                           (slice matches ((p - 1) * pageSize)
                                  ((p - 1) * pageSize + pageSize)))
                      (Z.of_nat (length matches)) p pageSize (Num pages)),
                st)) as Hsearch.
  { intros p. unfold search. simpl.
    destruct (trim query) as [|ch s] eqn:Ht.
    { apply trim_nil in Ht. congruence. }
    simpl. unfold bind.
    rewrite (scoped_search_reuses_cache net category playlistId path es st
               Hscope Hget).
    fold matches. rewrite Hceil. reflexivity. }
  exists pages. split.
  - intros p. rewrite Hsearch. split; [reflexivity|].
    eexists. split; reflexivity.
  - transitivity
      (map entryVideo
           (flat_map (fun p => slice matches ((p - 1) * pageSize)
                                            ((p - 1) * pageSize + pageSize))
                     (upFrom 1 (Z.to_nat pages)))).
    + generalize (upFrom 1 (Z.to_nat pages)). intros ps.
      induction ps as [|p ps IH]; simpl; [reflexivity|].
      rewrite Hsearch, map_app, IH. reflexivity.
    + f_equal. rewrite slices_from by lia. simpl.
      apply firstn_all2.
      assert (0 <= pages)%Z by nia.
      assert (Z.of_nat (length matches)
              <= Z.of_nat (Z.to_nat pages * Z.to_nat pageSize))%Z; [|lia].
      rewrite Nat2Z.inj_mul, !Z2Nat.id by lia. lia.
Qed.

(** ** The requests of a cold global search *)

Lemma lit_inj (a b : string) : lit a = lit b -> a = b.
Proof.
  unfold lit. intros H.
  rewrite <- (string_of_list_ascii_of_string a),
          <- (string_of_list_ascii_of_string b).
  f_equal. revert H.
  generalize (list_ascii_of_string a), (list_ascii_of_string b).
  intros l1. induction l1 as [|x l1 IH]; intros [|y l2]; simpl;
    try discriminate; [reflexivity|].
  intros H. injection H as Hx Hl. f_equal; [|apply IH, Hl].
  rewrite <- (ascii_N_embedding x), <- (ascii_N_embedding y), Hx.
  reflexivity.
Qed.

Lemma to_int_proper (z : Z) :
  Z.to_int z <> Decimal.Pos Decimal.Nil
  /\ Z.to_int z <> Decimal.Neg Decimal.Nil.
Proof.
  destruct z as [|q|q]; simpl; split; try discriminate;
    intros H; injection H as H;
    exact (DecimalPos.Unsigned.to_uint_nonnil q H).
Qed.

(** Different numbers print differently. *)
Lemma Number_toString_inj (a b : Z) :
  Number_toString a = Number_toString b -> a = b.
Proof.
  unfold Number_toString. intros H. apply lit_inj in H.
  apply DecimalZ.to_int_inj.
  destruct (to_int_proper a) as [Ha1 Ha2].
  destruct (to_int_proper b) as [Hb1 Hb2].
  pose proof (NilZero.isi (Z.to_int a) Ha1 Ha2) as Ea.
  pose proof (NilZero.isi (Z.to_int b) Hb1 Hb2) as Eb.
  rewrite H in Ea. rewrite Ea in Eb. injection Eb as ->. reflexivity.
Qed.

Lemma chunkPath_inj (i j : Z) : chunkPath i = chunkPath j -> i = j.
Proof.
  unfold chunkPath. intros H. apply app_inv_head in H.
  apply app_inv_tail in H. apply Number_toString_inj, H.
Qed.

Lemma get_cacheSet_none (k key : jsstring) (value : json) (c : JSMap.t json) :
  k <> key -> JSMap.get k c = None ->
  JSMap.get k (cacheSet key value c) = None.
Proof.
  intros Hne Hnone.
  destruct (JSMap.get k (cacheSet key value c)) as [x|] eqn:Hget;
    [|reflexivity].
  apply get_in, in_cacheSet in Hget. destruct Hget as [[E _]|Hin];
    [contradiction|].
  apply get_none_keys in Hnone. exfalso. apply Hnone.
  unfold JSMap.keys. apply (in_map fst) in Hin. exact Hin.
Qed.

Lemma chunkLoop_requests (net : Net json) (chunkOf : Z -> json) (n : nat) :
  forall (i : Z) (acc : list SearchEntry) (st : State),
    (forall j, (i <= j)%Z -> JSMap.get (chunkPath j) (cache st) = None) ->
    (forall j, (i <= j < i + Z.of_nat n)%Z ->
               served net (chunkPath j) = Some (chunkOf j)) ->
    requests (snd (chunkLoop net n i acc st))
    = requests st ++ map (fun j => resourceURL (chunkPath j)) (upFrom i n)
    /\ exists es, fst (chunkLoop net n i acc st) = Ok es.
Proof.
  induction n as [|n IH]; intros i acc st Hcold Hserved; simpl.
  - rewrite app_nil_r. split; [reflexivity | eexists; reflexivity].
  - unfold bind.
    rewrite (fetchJson_miss net (chunkPath i) st (Hcold i (Z.le_refl i))).
    rewrite (settle_served net (chunkPath i) _ (chunkOf i))
      by (apply Hserved; lia).
    set (st1 := with_cache (cacheSet (chunkPath i) (chunkOf i))
                  (with_request (resourceURL (chunkPath i)) st)).
    destruct (IH (i + 1)%Z (acc ++ entries (asChunk V (chunkOf i))) st1)
      as [Hreq Hok].
    + intros j Hj. simpl. apply get_cacheSet_none; [|apply Hcold; lia].
      intros E. apply chunkPath_inj in E. lia.
    + intros j Hj. apply Hserved. lia.
    + rewrite Hreq. simpl. rewrite <- app_assoc. split; [reflexivity|].
      exact Hok.
Qed.

(** A global search on a cold state (entry list not loaded, neither the
    manifest nor a chunk in the cache), with the manifest and its chunks
    served, issues one request for the manifest and then one for each of
    the chunks 1, 2, ..., [totalChunks], in that order, and no other. *)
Theorem cold_global_search_requests
    (net : Net json) (query : jsstring)
    (category playlistId : option jsstring) (page pageSize : option Z)
    (manifest : json) (chunkOf : Z -> json) (st : State) :
  scopePath category playlistId = Ok None ->
  forallb isWhiteSpace query = false ->
  JSMap.get allKey (searchCache st) = None ->
  JSMap.get manifestPath (cache st) = None ->
  (forall j, JSMap.get (chunkPath j) (cache st) = None) ->
  served net manifestPath = Some manifest ->
  (forall j, (1 <= j <= totalChunks (asManifest V manifest))%Z ->
             served net (chunkPath j) = Some (chunkOf j)) ->
  requests (snd (search net query
                   (Some (mkSearchOptions category playlistId page pageSize))
                   st))
  = requests st
      ++ resourceURL manifestPath
      :: map (fun j => resourceURL (chunkPath j))
             (chunkNumbers (totalChunks (asManifest V manifest))).
Proof.
  intros Hscope Hq Hall Hmiss Hcold Hm Hchunks.
  unfold search. simpl.
  destruct (trim query) as [|ch s] eqn:Ht.
  { apply trim_nil in Ht. congruence. }
  simpl. unfold bind at 1.
  assert (requests (snd (getSearchEntries net category playlistId st))
          = requests st
              ++ resourceURL manifestPath
              :: map (fun j => resourceURL (chunkPath j))
                     (chunkNumbers (totalChunks (asManifest V manifest))))
    as Hreq.
  { unfold getSearchEntries. rewrite Hscope. unfold getAllEntries, bind.
    rewrite (fetchJson_miss net manifestPath st Hmiss).
    rewrite (settle_served net manifestPath _ manifest Hm).
    unfold gets, JSMap.has. simpl. rewrite Hall. simpl.
    set (st1 := with_cache (cacheSet manifestPath manifest)
                  (with_request (resourceURL manifestPath) st)).
    destruct (chunkLoop_requests net chunkOf
                (Z.to_nat (totalChunks (asManifest V manifest))) 1%Z [] st1)
      as [Hreq [es Hes]].
    - intros j _. simpl. apply get_cacheSet_none; [discriminate|].
      apply Hcold.
    - intros j Hj. apply Hchunks. lia.
    - destruct (chunkLoop net _ 1%Z [] st1) as [[es'|e] s2];
        simpl in Hes; [|discriminate].
      simpl in Hreq. unfold modify, cachedEntries, bind, gets. simpl.
      rewrite get_set_same. simpl. rewrite Hreq. simpl.
      rewrite <- app_assoc. reflexivity. }
  destruct (getSearchEntries net category playlistId st) as [[es|e] s1];
    exact Hreq.
Qed.

(** ** The shape of the paths *)

Ltac distinct_paths :=
  repeat match goal with
         | |- _ /\ _ => split
         | |- _ <> _ => discriminate
         end.

(** Paths of different kinds never coincide, whatever the ids, the
    category and the numbers are: a listing fragment, a video detail, the
    index, the search manifest, a search chunk and a scoped search file
    have pairwise different paths, and no path is the key ["__all__"].
    So an entry that the bounded cache holds for one kind of resource is
    never handed out as another kind. *)
Theorem resource_paths_do_not_collide
    (page : Z) (sort : Sort) (category playlistId : option jsstring)
    (category' playlistId' : option jsstring)
    (listing scope id : jsstring) (i : Z) :
  listingPath page sort category playlistId = Ok listing ->
  scopePath category' playlistId' = Ok (Some scope) ->
  (listing <> videoPath id /\ listing <> indexPath
   /\ listing <> manifestPath /\ listing <> chunkPath i
   /\ listing <> scope /\ listing <> allKey)
  /\ (scope <> videoPath id /\ scope <> indexPath
      /\ scope <> manifestPath /\ scope <> chunkPath i /\ scope <> allKey)
  /\ (videoPath id <> indexPath /\ videoPath id <> manifestPath
      /\ videoPath id <> chunkPath i /\ videoPath id <> allKey)
  /\ (chunkPath i <> manifestPath /\ chunkPath i <> indexPath
      /\ chunkPath i <> allKey
      /\ manifestPath <> indexPath /\ manifestPath <> allKey
      /\ indexPath <> allKey).
Proof.
  unfold listingPath, scopePath. intros Hl Hs.
  assert (exists rest,
             scope = lit "/search/playlist/" ++ rest
             \/ scope = lit "/search/category/" ++ rest) as [rs Hscope].
  { destruct playlistId' as [[|ch s]|];
      try (injection Hs as <-; eexists; left; reflexivity);
      (destruct (categoryFilter category') as [cat|]; [|discriminate];
       destruct (encodeURIComponent cat) as [enc|]; [|discriminate];
       injection Hs as <-; eexists; right; reflexivity). }
  assert (exists rest,
             listing = lit "/playlists/" ++ rest
             \/ listing = lit "/categories/" ++ rest
             \/ listing = lit "/videos/" ++ rest) as [rl Hlisting].
  { destruct playlistId as [[|ch s]|];
      try (injection Hl as <-; eexists; left; reflexivity);
      (destruct (categoryFilter category) as [cat|];
       [destruct (encodeURIComponent cat) as [enc|]; [|discriminate];
        injection Hl as <-; eexists; right; left; reflexivity
       |injection Hl as <-; eexists; right; right; reflexivity]). }
  unfold videoPath, indexPath, manifestPath, chunkPath, allKey.
  destruct Hscope as [-> | ->]; destruct Hlisting as [-> | [-> | ->]];
    distinct_paths.
Qed.

Lemma hexDigit_unreserved (n : N) :
  (n < 16)%N -> uriUnreserved (hexDigit n) = true.
Proof.
  intros Hn. unfold hexDigit. destruct (n <? 10)%N eqn:E.
  - apply N.ltb_lt in E. unfold uriUnreserved.
    assert (((48 <=? 48 + n) && (48 + n <=? 57))%N = true) as ->.
    { apply andb_true_iff. split; apply N.leb_le; lia. }
    rewrite orb_true_r. reflexivity.
  - apply N.ltb_ge in E. unfold uriUnreserved.
    assert (((65 <=? 55 + n) && (55 + n <=? 90))%N = true) as ->.
    { apply andb_true_iff. split; apply N.leb_le; lia. }
    reflexivity.
Qed.

Lemma percentEncode_safe (cp : N) :
  Forall (fun ch => uriUnreserved ch = true \/ ch = 37%N) (percentEncode cp).
Proof.
  unfold percentEncode. apply Forall_flat_map. apply Forall_forall.
  intros o _. unfold percentOctet.
  constructor; [right; reflexivity|].
  constructor; [left; apply hexDigit_unreserved, N.mod_lt; discriminate|].
  constructor; [left; apply hexDigit_unreserved, N.mod_lt; discriminate|].
  constructor.
Qed.

Lemma encodeURIComponent_safe_aux (n : nat) :
  forall s enc,
    (length s <= n)%nat -> encodeURIComponent s = Some enc ->
    Forall (fun ch => uriUnreserved ch = true \/ ch = 37%N) enc.
Proof.
  induction n as [|n IH]; intros [|ch rest] enc Hlen Henc; simpl in *;
    try (injection Henc as <-; constructor); try lia.
  destruct (uriUnreserved ch) eqn:Hu.
  - destruct (encodeURIComponent rest) as [e|] eqn:He; [|discriminate].
    injection Henc as <-. constructor; [left; exact Hu|].
    apply (IH rest e); [lia | exact He].
  - destruct (isLeadSurrogate ch).
    + destruct rest as [|lo rest']; [discriminate|].
      destruct (isTrailSurrogate lo); [|discriminate].
      destruct (encodeURIComponent rest') as [e|] eqn:He; [|discriminate].
      injection Henc as <-. apply Forall_app. split.
      * apply percentEncode_safe.
      * apply (IH rest' e); [simpl in Hlen; lia | exact He].
    + destruct (isTrailSurrogate ch); [discriminate|].
      destruct (encodeURIComponent rest) as [e|] eqn:He; [|discriminate].
      injection Henc as <-. apply Forall_app. split.
      * apply percentEncode_safe.
      * apply (IH rest e); [lia | exact He].
Qed.

(** The category of a listing path and of a search path is always
    percent-encoded: between [/categories/] (or [/search/category/]) and
    the rest of the path stand only letters, digits, the marks
    [- _ . ! ~ * ' ( )] and [%]; no slash, question mark or hash of the
    category reaches the path. *)
Theorem category_segment_is_encoded
    (page : Z) (sort : Sort) (category playlistId : option jsstring)
    (cat : jsstring) :
  truthy_opt playlistId = false ->
  categoryFilter category = Some cat ->
  isWellFormed cat = true ->
  exists enc,
    Forall (fun ch => uriUnreserved ch = true \/ ch = 37%N) enc
    /\ ~ In 47%N enc /\ ~ In 63%N enc /\ ~ In 35%N enc
    /\ listingPath page sort category playlistId
       = Ok (lit "/categories/" ++ enc ++ lit "/" ++ sortText sort
               ++ lit "/page-" ++ Number_toString page ++ lit ".json")
    /\ scopePath category playlistId
       = Ok (Some (lit "/search/category/" ++ enc ++ lit ".json")).
Proof.
  intros Hp Hcat Hwf.
  destruct (encodeURIComponent_total cat Hwf) as [enc Henc].
  pose proof (encodeURIComponent_safe_aux (length cat) cat enc
                (Nat.le_refl _) Henc) as Hsafe.
  exists enc. split; [exact Hsafe|].
  assert (forall ch, In ch enc -> uriUnreserved ch = true \/ ch = 37%N)
    as Hall by (apply Forall_forall; exact Hsafe).
  split; [|split; [|split]];
    try (intros Hin; destruct (Hall _ Hin); discriminate).
  unfold listingPath, scopePath. rewrite Hcat, Henc.
  destruct playlistId as [[|ch s]|]; try discriminate; split; reflexivity.
Qed.

(** ** What a page of search results holds *)

Lemma slice_length {A : Type} (l : list A) (start size : Z) :
  (0 <= size)%Z ->
  (Z.of_nat (length (slice l start (start + size))) <= size)%Z.
Proof.
  intros Hsize. unfold slice. rewrite length_firstn, length_skipn.
  destruct (start <? 0)%Z eqn:E1; destruct (start + size <? 0)%Z eqn:E2;
    try apply Z.ltb_lt in E1; try apply Z.ltb_ge in E1;
    try apply Z.ltb_lt in E2; try apply Z.ltb_ge in E2; lia.
Qed.

Lemma slice_incl {A : Type} (l : list A) (start finish : Z) (x : A) :
  In x (slice l start finish) -> In x l.
Proof.
  unfold slice. intros H.
  set (k := Z.to_nat
              (if (start <? 0)%Z
               then Z.max (Z.of_nat (length l) + start) 0
               else Z.min start (Z.of_nat (length l)))) in *.
  rewrite <- (firstn_skipn k l). apply in_or_app. right.
  match type of H with
  | In x (firstn ?n ?m) => rewrite <- (firstn_skipn n m)
  end.
  apply in_or_app. left. exact H.
Qed.

(** Whatever the scope, the state, the page and the page size, [search]
    returns only videos of entries of the searched list whose lower-cased
    title contains the lower-cased query; with a page size that is not
    negative it never returns more than [pageSize] of them, for a
    negative page number as well. *)
Theorem search_results_are_matches
    (net : Net json) (query : jsstring) (options : option SearchOptions)
    (st : State) (vp : VideoPage) :
  forallb isWhiteSpace query = false ->
  fst (search net query options st) = Ok vp ->
  exists es,
    fst (getSearchEntries net (so_category (orNoOptions options))
                          (so_playlistId (orNoOptions options)) st) = Ok es
    /\ (forall v, In v (vp_items vp) ->
          exists e,
            In e es /\ v = entryVideo e
            /\ exists pre post,
                 toLowerCase (e_t e) = pre ++ toLowerCase query ++ post)
    /\ (0 <= vp_total vp)%Z
    /\ (Z.of_nat (length (vp_items vp)) <= vp_total vp)%Z
    /\ ((0 <= vp_pageSize vp)%Z ->
        (Z.of_nat (length (vp_items vp)) <= vp_pageSize vp)%Z).
Proof.
  intros Hq Hrun. unfold search in Hrun.
  destruct (trim query) as [|ch s] eqn:Ht.
  { apply trim_nil in Ht. congruence. }
  simpl in Hrun. unfold bind in Hrun.
  destruct (getSearchEntries net _ _ st) as [[es|e] s1]; simpl in Hrun;
    [|discriminate].
  injection Hrun as <-. exists es. split; [reflexivity|]. simpl.
  set (matches := filter (titleMatches (toLowerCase query)) es).
  split; [|split; [lia|split]].
  - intros v Hin. apply in_map_iff in Hin. destruct Hin as (e & <- & Hin).
    apply slice_incl in Hin. unfold matches in Hin.
    apply filter_In in Hin. destruct Hin as [Hes Hm].
    exists e. split; [exact Hes|]. split; [reflexivity|].
    apply includes_spec. exact Hm.
  - rewrite length_map. unfold slice.
    rewrite length_firstn, length_skipn. lia.
  - intros Hsize. rewrite length_map. apply slice_length. exact Hsize.
Qed.

(** ** When the listing throws *)



End StaticData.

Arguments cache {json} _.
Arguments indexCache {json} _.
Arguments searchCache {json} _.
Arguments requests {json} _.

(* ================================================================== *)
(** * The prerender filter                                             *)
(* ================================================================== *)

Lemma startsWith_app (p s q : jsstring) :
  startsWith (p ++ s) (p ++ q) = startsWith s q.
Proof.
  induction p as [|x p IH]; simpl; [reflexivity|].
  rewrite N.eqb_refl. exact IH.
Qed.

Lemma startsWith_longer (s p q : jsstring) :
  startsWith s p = false -> startsWith s (p ++ q) = false.
Proof.
  revert s. induction p as [|x p IH]; intros s; simpl; [discriminate|].
  destruct s as [|y s]; [reflexivity|].
  destruct (N.eqb x y); simpl; [apply IH | reflexivity].
Qed.

Lemma sliceFrom_app (p s : jsstring) :
  ViteConfig.sliceFrom (p ++ s) (Z.of_nat (length p)) = s.
Proof.
  unfold ViteConfig.sliceFrom, slice, jsstring in *. rewrite length_app.
  destruct (Z.of_nat (length p) <? 0)%Z eqn:E1;
    [apply Z.ltb_lt in E1; lia|].
  destruct (Z.of_nat (length p + length s) <? 0)%Z eqn:E2;
    [apply Z.ltb_lt in E2; lia|].
  rewrite !Z.min_l by lia.
  rewrite Nat2Z.id. rewrite skipn_app, skipn_all, Nat.sub_diag. simpl.
  apply firstn_all2. lia.
Qed.

Lemma cleanPath_based (rest : jsstring) :
  ViteConfig.cleanPath (ViteConfig.basePath ++ rest) = lit "/" ++ rest.
Proof.
  unfold ViteConfig.cleanPath.
  assert (startsWith (ViteConfig.basePath ++ rest) ViteConfig.basePath = true)
    as ->.
  { apply startsWith_spec. exists rest. reflexivity. }
  rewrite sliceFrom_app. reflexivity.
Qed.

(** The filter never lets through a path with a [#] in it, nor a path
    that begins with [/study] or [/dashboard], with the base path in
    front or without it. *)
Theorem prerender_filter_excludes (path : jsstring) :
  ViteConfig.filter path = true ->
  includes path (lit "#") = false
  /\ startsWith path (lit "/study") = false
  /\ startsWith path (lit "/dashboard") = false
  /\ startsWith path (ViteConfig.basePath ++ lit "study") = false
  /\ startsWith path (ViteConfig.basePath ++ lit "dashboard") = false.
Proof.
  unfold ViteConfig.filter.
  destruct (includes path (lit "#")); [discriminate|].
  destruct (startsWith path ViteConfig.basePath) eqn:Hbase.
  - apply startsWith_spec in Hbase. destruct Hbase as [rest ->].
    rewrite cleanPath_based.
    destruct (startsWith (lit "/" ++ rest) (lit "/study")) eqn:Hs;
      [discriminate|].
    destruct (startsWith (lit "/" ++ rest) (lit "/dashboard")) eqn:Hd;
      [discriminate|].
    intros _. rewrite !startsWith_app.
    change (lit "/study") with (lit "/" ++ lit "study") in Hs.
    change (lit "/dashboard") with (lit "/" ++ lit "dashboard") in Hd.
    rewrite startsWith_app in Hs, Hd.
    repeat split; trivial.
  - unfold ViteConfig.cleanPath. rewrite Hbase.
    destruct (startsWith path (lit "/study")); [discriminate|].
    destruct (startsWith path (lit "/dashboard")); [discriminate|].
    intros _. repeat split; trivial; apply startsWith_longer; exact Hbase.
Qed.

(** A page is treated alike with and without the base path: the filter
    decides [basePath ++ rest] as it decides [/ ++ rest], provided the
    latter does not itself begin with the base path. *)
Theorem prerender_filter_ignores_base (rest : jsstring) :
  startsWith (lit "/" ++ rest) ViteConfig.basePath = false ->
  ViteConfig.filter (ViteConfig.basePath ++ rest)
  = ViteConfig.filter (lit "/" ++ rest).
Proof.
  intros Hnot. unfold ViteConfig.filter.
  rewrite cleanPath_based.
  assert (ViteConfig.cleanPath (lit "/" ++ rest) = lit "/" ++ rest) as ->.
  { unfold ViteConfig.cleanPath. rewrite Hnot. reflexivity. }
  assert (includes (ViteConfig.basePath ++ rest) (lit "#")
          = includes (lit "/" ++ rest) (lit "#")) as ->; [|reflexivity].
  reflexivity.
Qed.

(* ================================================================== *)
(** * The properties on the sample site                                *)
(* ================================================================== *)

Section OnTheSampleSite.

Import Sample.

(** The module in a browser ([isServer = false]) on the sample payloads,
    with ASCII lower-casing. *)
Local Abbreviation start := (initial payload).
Local Abbreviation getIndex' := (@getIndex payload payloadViews false []).
Local Abbreviation getVideos' := (@getVideos payload payloadViews false []).
Local Abbreviation getVideo' := (@getVideo payload payloadViews false []).
Local Abbreviation fetchJson' := (@fetchJson payload false []).
Local Abbreviation getSearchEntries' := (@getSearchEntries payload payloadViews false []).
Local Abbreviation search' := (@search payload payloadViews false [] lower).
Local Abbreviation loadVideoPage' := (@loadVideoPage payload payloadViews false []).
Local Abbreviation perform' := (@perform payload payloadViews false [] lower).
Local Abbreviation run' := (@run payload payloadViews false [] lower).
Local Abbreviation run_static' := (@run_static payload payloadViews false [] lower).

(** The spec's example: two chunks, three entries, two of them on
    Tafsir. *)
Example search_tafsir :
  fst (search' site (lit "tafsir") None start)
  = Ok (mkVideoPage
          [entryVideo (entry "v1" "Tafsir Al-Baqarah");
           entryVideo (entry "v3" "Tafsir An-Nisa")]
          2 1 24 (Num 1)).
Proof. vm_compute. reflexivity. Qed.

(** One hundred detail loads, of the videos 1 to 100. *)
Local Abbreviation hundredLoads :=
  (map (fun id => (site, CallGetVideo id)) (ids 100)).

(** C1, at a history that fills the cache: the 101st distinct detail
    evicts the detail of video 1 and nothing else. *)
Lemma cache_bounded_fifo_witness :
  exists oldest value rest,
    cache (run' hundredLoads start) = (oldest, value) :: rest
    /\ oldest = lit "/video/1.json"
    /\ cache (snd (fetchJson' site (lit "/video/101.json")
                              (run' hundredLoads start)))
       = rest ++ [(lit "/video/101.json",
                   PDetails (detail (lit "x") None None None 0 1))].
Proof.
  destruct (@cache_bounded_fifo payload payloadViews false [] lower hundredLoads)
    as (_ & Hevict & _).
  destruct (Hevict site (lit "/video/101.json")
                   (PDetails (detail (lit "x") None None None 0 1)))
    as (oldest & value & rest & Hc & _ & Hafter & _).
  - vm_compute. reflexivity.
  - vm_compute. reflexivity.
  - vm_compute. reflexivity.
  - exists oldest, value, rest. split; [exact Hc|]. split; [|exact Hafter].
    assert (JSMap.firstKey (cache (run' hundredLoads start))
            = Some (lit "/video/1.json")) as Hfirst
      by (vm_compute; reflexivity).
    rewrite Hc in Hfirst. simpl in Hfirst. injection Hfirst as ->.
    reflexivity.
Defined.

(** C2, on the sample site, after a history that has loaded the global
    entry list: the second page of one match per page. *)
Lemma global_search_result_witness :
  exists vp,
    fst (search' site (lit "TAFSIR")
           (Some (mkSearchOptions None None (Some 2%Z) (Some 1%Z)))
           (run_static' site [CallSearch (lit "intro") None;
                              CallGetVideo (lit "a")] start))
    = Ok vp
    /\ vp_total vp = 2%Z
    /\ vp_totalPages vp = Num 2
    /\ vp_items vp = [entryVideo (entry "v3" "Tafsir An-Nisa")].
Proof.
  destruct (@global_search_result payload payloadViews false [] lower site
              [CallSearch (lit "intro") None; CallGetVideo (lit "a")]
              (lit "TAFSIR") None None (Some 2%Z) (Some 1%Z)
              (PManifest (mkManifest 2))
              (fun i => if (i =? 1)%Z
                        then PChunk (mkChunk [entry "v1" "Tafsir Al-Baqarah";
                                              entry "v2" "Intro"])
                        else PChunk (mkChunk [entry "v3" "Tafsir An-Nisa"])))
    as (vp & pages & _ & Hrun & Htotal & _ & _ & _ & _ & Hpages & Hbounds
        & Hitems & _).
  - reflexivity.
  - reflexivity.
  - vm_compute. reflexivity.
  - intros i Hi. simpl in Hi.
    assert (i = 1 \/ i = 2)%Z as [-> | ->] by lia; vm_compute; reflexivity.
  - simpl. lia.
  - simpl. lia.
  - assert (vp_total vp = 2%Z) as Htwo
      by (rewrite Htotal; vm_compute; reflexivity).
    exists vp. split; [exact Hrun|]. split; [exact Htwo|].
    rewrite Htwo in Hbounds. unfold optPageSize in Hbounds.
    replace pages with 2%Z in Hpages by lia.
    split; [exact Hpages|]. rewrite Hitems by (simpl; lia).
    vm_compute. reflexivity.
Defined.

(** C2 as stated fails at a negative page: with two matches and one
    match per page, page -1 is outside the pages 1 to 2, and yet
    [slice(-2, -1)] hands back the first match. (A negative page size does
    the same to page 1: [slice(0, -1)].) *)
Lemma search_negative_page_counterexample :
  (exists vp,
      fst (search' site (lit "tafsir")
             (Some (mkSearchOptions None None (Some (-1)%Z) (Some 1%Z))) start)
      = Ok vp
      /\ vp_total vp = 2%Z
      /\ vp_totalPages vp = Num 2
      /\ vp_page vp = (-1)%Z
      /\ ~ (1 <= vp_page vp <= 2)%Z
      /\ vp_items vp = [entryVideo (entry "v1" "Tafsir Al-Baqarah")]
      /\ length (vp_items vp) <> 0%nat)
  /\ (exists vp,
        fst (search' site (lit "tafsir")
               (Some (mkSearchOptions None None (Some 1%Z) (Some (-1)%Z)))
               start)
        = Ok vp
        /\ vp_total vp = 2%Z
        /\ vp_totalPages vp = Num (-2)
        /\ vp_items vp = [entryVideo (entry "v1" "Tafsir Al-Baqarah")]).
Proof.
  split.
  - eexists. split; [vm_compute; reflexivity|]. simpl.
    repeat split; try discriminate. lia.
  - eexists. split; [vm_compute; reflexivity|]. simpl. repeat split.
Qed.

(** C3 fails on the code in the global scope. After a global search has
    loaded the entry list, one hundred other loads evict the manifest
    from the bounded cache; the next global search then fetches
    [/search/manifest.json] again although the entry list is still in the
    search-scope cache, and, were the network down at that moment, it
    would fail instead of answering from the cached list. *)
Lemma global_search_refetches_manifest :
  let loaded := perform' site (CallSearch (lit "tafsir") None) start in
  let later := run' hundredLoads loaded in
  JSMap.has allKey (searchCache loaded) = true
  /\ JSMap.has allKey (searchCache later) = true
  /\ JSMap.has manifestPath (cache later) = false
  /\ requests (snd (search' site (lit "tafsir") None later))
     = requests later ++ [lit "/data/search/manifest.json"]
  /\ fst (search' offline (lit "tafsir") None later) = Throw TypeError
  /\ requests (snd (search' offline (lit "tafsir") None later))
     = requests later ++ [lit "/data/search/manifest.json"].
Proof. vm_compute. repeat split. Qed.

(** C4, on the sample site, which has no search file for the category
    "fiqh". *)
Lemma scoped_search_failure_degrades_witness :
  fst (getSearchEntries' site (Some (lit "fiqh")) None start) = Ok []
  /\ requests (snd (getSearchEntries' site (Some (lit "fiqh")) None start))
     = [lit "/data/search/category/fiqh.json"]
  /\ requests
       (snd (getSearchEntries' site (Some (lit "fiqh")) None
               (snd (getSearchEntries' site (Some (lit "fiqh")) None start))))
     = [lit "/data/search/category/fiqh.json";
        lit "/data/search/category/fiqh.json"].
Proof.
  destruct (@scoped_search_failure_degrades payload payloadViews false [] lower
              site site (Some (lit "fiqh")) None
              (lit "/search/category/fiqh.json") start
              (Error (lit "Failed to fetch /search/category/fiqh.json: 404"))
              (lit "tafsir") None None)
    as (Hnone & _ & _ & _ & _ & Hlog & Hagain & _).
  - reflexivity.
  - reflexivity.
  - vm_compute. reflexivity.
  - split; [exact Hnone|]. split; [exact Hlog|].
    rewrite Hagain, Hlog. reflexivity.
Defined.

(** C5, on the sample site: after one successful [getIndex], a hundred
    other loads and a network that is down leave [getIndex] answering
    with the same index. *)
Lemma getIndex_loads_once_witness :
  let st1 := snd (getIndex' site start) in
  indexCache st1 = Some index
  /\ getIndex' offline (run' hundredLoads st1)
     = (Ok index, run' hundredLoads st1).
Proof.
  intros st1.
  destruct (@getIndex_loads_once payload payloadViews false [] lower site start)
    as (Hfirst & _).
  destruct (Hfirst index st1) as (Hset & Hlater).
  - vm_compute. reflexivity.
  - split; [exact Hset|]. apply (Hlater hundredLoads offline).
Defined.

(** C6 as stated fails: a category cut in the middle of a surrogate pair
    (here ["fiqh"] followed by the lone lead surrogate U+D83D) makes
    [encodeURIComponent] raise, before the [try] block is entered, and
    [getVideos] throws that [URIError] without a request. So it is not
    so that [getVideos] returns a page on every combination of inputs. *)
Lemma getVideos_lone_surrogate_counterexample :
  encodeURIComponent (lit "fiqh" ++ [55357%N]) = None
  /\ getVideos' site
       (mkListingOptions (Some 2%Z) (Some views)
                         (Some (lit "fiqh" ++ [55357%N])) None)
       start
     = (Throw URIError, start)
  /\ ~ (forall (net : Net payload) (options : ListingOptions)
               (st : State payload),
           exists vp, fst (getVideos' net options st) = Ok vp).
Proof.
  split; [vm_compute; reflexivity|]. split; [vm_compute; reflexivity|].
  intros Hall.
  destruct (Hall site
              (mkListingOptions (Some 2%Z) (Some views)
                                (Some (lit "fiqh" ++ [55357%N])) None)
              start) as [vp Hvp].
  vm_compute in Hvp. discriminate.
Qed.

(** C6 as amended, on the sample site, which has no listing fragment at
    all: page 999 of the category ["fiqh"] is the empty page; and so is
    page 1 of a playlist, though the category that comes with it holds a
    lone surrogate, for the playlist id takes precedence and the category
    is not encoded. *)
Lemma getVideos_degrades_on_fetch_failure_witness :
  fst (getVideos' site
         (mkListingOptions (Some 999%Z) (Some views) (Some (lit "fiqh")) None)
         start)
  = Ok (mkVideoPage [] 0 999 24 (Num 0))
  /\ fst (getVideos' site
            (mkListingOptions None None (Some [55357%N]) (Some (lit "PL1")))
            start)
     = Ok (mkVideoPage [] 0 1 24 (Num 0)).
Proof.
  split.
  - destruct (@getVideos_degrades_on_fetch_failure payload payloadViews
                false [] site
                (mkListingOptions (Some 999%Z) (Some views)
                                  (Some (lit "fiqh")) None) start)
      as (path & vp & Hpath & Hrun & Hfail).
    + intros _ cat H. vm_compute in H. injection H as <-. reflexivity.
    + rewrite Hrun. f_equal. vm_compute in Hpath. injection Hpath as <-.
      apply (Hfail (Error (lit "Failed to fetch /categories/fiqh/views/page-999.json: 404"))).
      vm_compute. reflexivity.
  - destruct (@getVideos_degrades_on_fetch_failure payload payloadViews
                false [] site
                (mkListingOptions None None (Some [55357%N])
                                  (Some (lit "PL1"))) start)
      as (path & vp & Hpath & Hrun & Hfail).
    + intros H. vm_compute in H. discriminate.
    + rewrite Hrun. f_equal. vm_compute in Hpath. injection Hpath as <-.
      apply (Hfail (Error (lit "Failed to fetch /playlists/PL1/date/page-1.json: 404"))).
      vm_compute. reflexivity.
Defined.

(** C7, at the query of three spaces, on a state that has history. *)
Lemma search_blank_query_short_circuits_witness :
  search' site (lit "   ")
    (Some (mkSearchOptions None None (Some 3%Z) None))
    (run' hundredLoads start)
  = (Ok (mkVideoPage [] 0 3 24 (Num 0)), run' hundredLoads start).
Proof.
  apply (@search_blank_query_short_circuits payload payloadViews false []
           lower site (lit "   ")
           (Some (mkSearchOptions None None (Some 3%Z) None))).
  reflexivity.
Defined.

(** C8 as stated fails: the category ["all"] is present and the listing
    asks for the unfiltered path, not for a category path; and the paths
    of the code are [/playlists/...json], [/categories/...json] and
    [/videos/...json], not the ones of the specification's wording. *)
Lemma listing_path_counterexample :
  listingPath 1 date (Some (lit "all")) None
  = Ok (lit "/videos/date/page-1.json")
  /\ specListingPath 1 date (Some (lit "all")) None
     = Some (lit "category/all/date/page-1")
  /\ listingPath 1 date None (Some (lit "PL1"))
     = Ok (lit "/playlists/PL1/date/page-1.json")
  /\ specListingPath 1 date None (Some (lit "PL1"))
     = Some (lit "playlist/PL1/date/page-1")
  /\ (forall page sort category playlistId path,
        listingPath page sort category playlistId = Ok path ->
        specListingPath page sort category playlistId <> Some path).
Proof.
  split; [reflexivity|]. split; [reflexivity|]. split; [reflexivity|].
  split; [reflexivity|].
  intros page sort category playlistId path Hcode Hspec.
  apply listingPath_dataPath in Hcode. destruct Hcode as [[rest ->] _].
  unfold specListingPath in Hspec.
  destruct playlistId as [id|]; [discriminate|].
  destruct category as [cat|]; [|discriminate].
  destruct (encodeURIComponent cat); discriminate.
Qed.

(** C8 as amended, at a category with a space in a playlist-less
    listing, and at a listing with both selectors. *)
Lemma listing_path_precedence_witness :
  listingPath 2 oldest (Some (lit "fiqh usul")) None
  = Ok (lit "/categories/fiqh%20usul/oldest/page-2.json")
  /\ listingPath 2 oldest (Some (lit "fiqh usul")) (Some (lit "PL1"))
     = Ok (lit "/playlists/PL1/oldest/page-2.json")
  /\ requests (snd (getVideos' site
                      (mkListingOptions (Some 2%Z) (Some oldest)
                                        (Some (lit "fiqh usul")) None) start))
     = [lit "/data/categories/fiqh%20usul/oldest/page-2.json"].
Proof.
  destruct (@listing_path_precedence payload payloadViews false [] 2 oldest
              (Some (lit "fiqh usul")) None) as (_ & Hcat & _ & Hreq).
  destruct (@listing_path_precedence payload payloadViews false [] 2 oldest
              (Some (lit "fiqh usul")) (Some (lit "PL1"))) as (Hpl & _).
  split; [|split].
  - apply (Hcat (lit "fiqh usul") (lit "fiqh%20usul")); try reflexivity;
      discriminate.
  - apply (Hpl (lit "PL1")); [reflexivity | discriminate].
  - apply (Hreq site (Some 2%Z) (Some oldest) start
                (lit "/categories/fiqh%20usul/oldest/page-2.json"));
      reflexivity.
Defined.

(** C9, on the sample site, at video [a]: no previous video, the next
    one is [b], the playlist is named. *)
Lemma loadVideoPage_neighbours_witness :
  exists data st2,
    loadVideoPage' site (lit "a") true start = (Ok (Some data), st2)
    /\ prevVideo data = None
    /\ playlistVideoCount data = 3%Z
    /\ currentIndex data = 0%Z
    /\ playlistName data = lit "Lessons"
    /\ requests st2 = [lit "/data/video/a.json"; lit "/data/video/b.json"].
Proof.
  destruct (@loadVideoPage_neighbours payload payloadViews false [] site
              (lit "a") true start
              (snd (getVideo' site (lit "a") start))
              (detail (lit "a") (Some (lit "Lessons")) None
                      (Some (lit "b")) 0 3))
    as (data & st2 & Hrun & _ & Hcount & Hidx & _ & Hname & Hprev & _).
  - vm_compute. reflexivity.
  - exists data, st2. split; [exact Hrun|].
    destruct (Hprev eq_refl) as [Hnone Hst].
    split; [exact Hnone|]. split; [exact Hcount|]. split; [exact Hidx|].
    split; [apply (Hname (lit "Lessons")); [reflexivity | discriminate]|].
    rewrite Hst. vm_compute. reflexivity.
Defined.

(** C9, the default name: video [b] of the sample site has no playlist
    name. *)
Example loadVideoPage_default_name :
  exists data st2,
    loadVideoPage' site (lit "b") false start = (Ok (Some data), st2)
    /\ playlistName data = defaultPlaylistName
    /\ option_map v_id (prevVideo data) = Some (lit "a")
    /\ option_map v_id (nextVideo data) = Some (lit "x").
Proof. eexists _, _. vm_compute. repeat split. Qed.

(** C10, at the category ["all"]. *)
Lemma all_and_channel_mean_no_category_witness :
  getVideos' site (mkListingOptions (Some 1%Z) None (Some (lit "all")) None)
             start
  = getVideos' site (mkListingOptions (Some 1%Z) None None None) start
  /\ scopePath (Some (lit "all")) None = Ok None.
Proof.
  destruct (@all_and_channel_mean_no_category payload payloadViews false []
              lower site (lit "all") (Some 1%Z) None None (lit "tafsir")
              None start (or_introl eq_refl))
    as (Hlist & _ & Hglobal).
  destruct (Hglobal eq_refl) as (_ & Hscope & _).
  split; [exact Hlist | exact Hscope].
Defined.

(** ** Further properties on the sample site *)

Local Abbreviation cacheSet' := (@cacheSet payload).

(** A detail that was fetched is answered from the cache when the
    network is down. *)
Lemma fetchJson_memoises_witness :
  fetchJson' offline (lit "/video/a.json")
             (snd (fetchJson' site (lit "/video/a.json") start))
  = (Ok (PDetails (detail (lit "a") (Some (lit "Lessons")) None
                          (Some (lit "b")) 0 3)),
     snd (fetchJson' site (lit "/video/a.json") start)).
Proof.
  apply (@fetchJson_memoises payload false [] site offline
           (lit "/video/a.json") _ start).
  vm_compute. reflexivity.
Defined.

(** A fetch that failed with status 404 is repeated by the next call. *)
Lemma fetchJson_failure_is_retried_witness :
  fst (fetchJson' listed (lit "/videos/date/page-1.json")
                  (snd (fetchJson' site (lit "/videos/date/page-1.json")
                                   start)))
  = Ok (PPage firstPage)
  /\ requests
       (snd (fetchJson' listed (lit "/videos/date/page-1.json")
                        (snd (fetchJson' site
                                (lit "/videos/date/page-1.json") start))))
     = [lit "/data/videos/date/page-1.json";
        lit "/data/videos/date/page-1.json"].
Proof.
  destruct (@fetchJson_failure_is_retried payload false [] site listed
              (lit "/videos/date/page-1.json")
              (Error (lit "Failed to fetch /videos/date/page-1.json: 404"))
              (PPage firstPage) start)
    as (_ & _ & _ & _ & Hok & Hreq).
  - vm_compute. reflexivity.
  - vm_compute. reflexivity.
  - split; [exact Hok | exact Hreq].
Defined.

(** A second value for a cached path, with room left: the other key
    still reads its value. *)
Lemma cacheSet_with_room_witness :
  JSMap.get (lit "/a")
    (cacheSet' (lit "/b") (PManifest (mkManifest 2))
       [(lit "/a", PManifest (mkManifest 1));
        (lit "/b", PManifest (mkManifest 0))])
  = Some (PManifest (mkManifest 1)).
Proof.
  destruct (@cacheSet_with_room payload (lit "/b") (PManifest (mkManifest 2))
              [(lit "/a", PManifest (mkManifest 1));
               (lit "/b", PManifest (mkManifest 0))])
    as (_ & Hother & _).
  - vm_compute. reflexivity.
  - rewrite (Hother (lit "/a")); [reflexivity | discriminate].
Defined.

(** On the cache that a hundred loads have filled, storing the detail of
    video 50 again evicts the detail of video 1 and leaves 99 entries. *)
Lemma cacheSet_full_and_present_witness :
  JSMap.size
    (cacheSet' (lit "/video/50.json") (PManifest (mkManifest 0))
              (cache (run' hundredLoads start)))
  = 99%Z.
Proof.
  destruct (@cacheSet_full_and_present payload (lit "/video/50.json")
              (PManifest (mkManifest 0))
              (PDetails (detail (lit "x") None None None 0 1))
              (cache (run' hundredLoads start)))
    as (oldest & v & rest & Hc & _ & Hother).
  - apply run_cache_ok, initial_cache_ok.
  - vm_compute. reflexivity.
  - vm_compute. reflexivity.
  - apply Hother.
    assert (JSMap.firstKey (cache (run' hundredLoads start))
            = Some (lit "/video/1.json")) as Hfirst
      by (vm_compute; reflexivity).
    rewrite Hc in Hfirst. simpl in Hfirst. injection Hfirst as ->.
    discriminate.
Defined.

(** A full cache whose oldest key is the empty string takes a 101st
    entry. *)
Lemma cacheSet_empty_oldest_key_witness :
  JSMap.size
    (cacheSet' (lit "/video/101.json") (PManifest (mkManifest 0))
       (([], PManifest (mkManifest 0))
          :: tl (cache (run' hundredLoads start))))
  = 101%Z.
Proof.
  destruct (@cacheSet_empty_oldest_key payload (lit "/video/101.json")
              (PManifest (mkManifest 0)) (PManifest (mkManifest 0))
              (tl (cache (run' hundredLoads start)))) as [Hset _].
  - vm_compute. discriminate.
  - vm_compute. reflexivity.
  - rewrite Hset. vm_compute. reflexivity.
Defined.

(** A listing that degraded while the network was down loads at the next
    call. *)
Lemma getVideos_caches_only_success_witness :
  fst (getVideos' offline (mkListingOptions None None None None) start)
  = Ok (mkVideoPage [] 0 1 24 (Num 0))
  /\ fst (getVideos' listed (mkListingOptions None None None None)
            (snd (getVideos' offline (mkListingOptions None None None None)
                             start)))
     = Ok firstPage.
Proof.
  destruct (@getVideos_caches_only_success payload payloadViews false []
              offline listed (mkListingOptions None None None None)
              (lit "/videos/date/page-1.json") start eq_refl)
    as [_ Hfail].
  destruct (Hfail TypeError (PPage firstPage)) as (Hempty & Hnext & _).
  - vm_compute. reflexivity.
  - vm_compute. reflexivity.
  - split; [exact Hempty | exact Hnext].
Defined.

(** The video [t] has [u] before and after it: [u] is asked for twice. *)
Lemma loadVideoPage_requests_witness :
  requests (snd (loadVideoPage' twin (lit "t") true start))
  = [lit "/data/video/t.json"; lit "/data/video/u.json";
     lit "/data/video/u.json"].
Proof.
  rewrite (@loadVideoPage_requests payload payloadViews false [] twin
             (lit "t") true start
             (snd (getVideo' twin (lit "t") start))
             (detail (lit "t") None (Some (lit "u")) (Some (lit "u")) 0 2)).
  - vm_compute. reflexivity.
  - vm_compute. reflexivity.
Defined.

(** The category "fiqh", once loaded, is searched offline after a
    hundred other loads. *)
Lemma loaded_scope_is_permanent_witness :
  let loaded :=
    perform' scoped
      (CallSearch (lit "fiqh")
         (Some (mkSearchOptions (Some (lit "fiqh")) None None None))) start in
  getSearchEntries' offline (Some (lit "fiqh")) None (run' hundredLoads loaded)
  = (Ok fiqhEntries, run' hundredLoads loaded).
Proof.
  intros loaded.
  destruct (@loaded_scope_is_permanent payload payloadViews false [] lower
              hundredLoads (lit "/search/category/fiqh.json") fiqhEntries
              loaded) as [_ Hsearch].
  - vm_compute. reflexivity.
  - apply (Hsearch offline (Some (lit "fiqh")) None). reflexivity.
Defined.

(** A global search on a dead network throws after asking for the
    manifest, and the search-scope cache stays empty. *)
Lemma global_search_failure_propagates_witness :
  (exists e,
      search' offline (lit "fiqh")
        (Some (mkSearchOptions None None None None)) start
      = (Throw e, @with_request payload (lit "/data/search/manifest.json") start))
  /\ searchCache (snd (getSearchEntries' offline None None start)) = [].
Proof.
  destruct (@global_search_failure_propagates payload payloadViews false []
              lower offline (lit "fiqh") None None None None start)
    as [Hload Hmanifest]; [reflexivity | reflexivity |].
  split.
  - apply Hmanifest; reflexivity.
  - apply (Hload TypeError). vm_compute. reflexivity.
Defined.

(** The sample site answers 404 for the video ["missing"]: the loader
    gives [null] after that one request. *)
Lemma loadVideoPage_missing_video_witness :
  loadVideoPage' site (lit "missing") true start
  = (Ok None, @with_request payload (lit "/data/video/missing.json") start).
Proof.
  apply (@loadVideoPage_missing_video payload payloadViews false [] site
           (lit "missing") true start); reflexivity.
Defined.

(** Three matches, two per page: the two pages hold the three videos. *)
Lemma search_pages_partition_witness :
  let loaded :=
    perform' scoped
      (CallSearch (lit "fiqh")
         (Some (mkSearchOptions (Some (lit "fiqh")) None None None))) start in
  exists pages,
    flat_map
      (fun p =>
         itemsOf (fst (search' offline (lit "FIQH")
                         (Some (mkSearchOptions (Some (lit "fiqh")) None
                                                (Some p) (Some 2%Z)))
                         loaded)))
      (upFrom 1 (Z.to_nat pages))
    = [entryVideo (entry "f1" "Fiqh 1"); entryVideo (entry "f3" "Fiqh 2");
       entryVideo (entry "f4" "Fiqh 3")].
Proof.
  intros loaded.
  destruct (@search_pages_partition payload payloadViews false [] lower
              offline (lit "FIQH") (Some (lit "fiqh")) None
              (lit "/search/category/fiqh.json") fiqhEntries 2 loaded)
    as (pages & _ & Hall).
  - reflexivity.
  - vm_compute. reflexivity.
  - reflexivity.
  - lia.
  - exists pages. rewrite Hall. vm_compute. reflexivity.
Defined.

(** The first global search on the sample site. *)
Lemma cold_global_search_requests_witness :
  requests (snd (search' site (lit "tafsir") None start))
  = [lit "/data/search/manifest.json"; lit "/data/search/chunk-1.json";
     lit "/data/search/chunk-2.json"].
Proof.
  change (search' site (lit "tafsir") None start)
    with (search' site (lit "tafsir")
            (Some (mkSearchOptions None None None None)) start).
  rewrite (@cold_global_search_requests payload payloadViews false [] lower
             site (lit "tafsir") None None None None
             (PManifest (mkManifest 2))
             (fun i => if (i =? 1)%Z
                       then PChunk (mkChunk [entry "v1" "Tafsir Al-Baqarah";
                                             entry "v2" "Intro"])
                       else PChunk (mkChunk [entry "v3" "Tafsir An-Nisa"]))
             start); try reflexivity.
  intros j Hj. simpl in Hj.
  assert (j = 1 \/ j = 2)%Z as [-> | ->] by lia; vm_compute; reflexivity.
Defined.

(** A playlist listing and a playlist search file, against the detail of
    a video whose id looks like a listing. *)
Lemma resource_paths_do_not_collide_witness :
  lit "/playlists/PL1/date/page-1.json"
  <> videoPath (lit "s/PL1/date/page-1")
  /\ lit "/search/playlist/PL1.json" <> chunkPath 1.
Proof.
  destruct (resource_paths_do_not_collide 1 date None (Some (lit "PL1"))
              None (Some (lit "PL1"))
              (lit "/playlists/PL1/date/page-1.json")
              (lit "/search/playlist/PL1.json")
              (lit "s/PL1/date/page-1") 1 eq_refl eq_refl)
    as ((H1 & _) & (_ & _ & _ & H2 & _) & _).
  split; [exact H1 | exact H2].
Defined.

(** A category with a slash in it stays one path segment. *)
Lemma category_segment_is_encoded_witness :
  exists enc,
    ~ In 47%N enc
    /\ listingPath 1 date (Some (lit "a/b")) None
       = Ok (lit "/categories/" ++ enc ++ lit "/date/page-1.json").
Proof.
  destruct (category_segment_is_encoded 1 date (Some (lit "a/b")) None
              (lit "a/b") eq_refl eq_refl eq_refl)
    as (enc & _ & Hslash & _ & _ & Hlist & _).
  exists enc. split; [exact Hslash | exact Hlist].
Defined.

(** The page [/about] is prerendered, so it is none of the excluded
    ones. *)
Lemma prerender_filter_excludes_witness :
  startsWith (lit "/about") (lit "/study") = false
  /\ includes (lit "/about") (lit "#") = false.
Proof.
  destruct (prerender_filter_excludes (lit "/about") eq_refl)
    as (Hhash & Hstudy & _).
  split; [exact Hstudy | exact Hhash].
Defined.

(** The study page is left out with the base path as without it. *)
Lemma prerender_filter_ignores_base_witness :
  ViteConfig.filter (lit "/Dr-Yosry-Gabr-WebApp/study/notes") = false.
Proof.
  change (lit "/Dr-Yosry-Gabr-WebApp/study/notes")
    with (ViteConfig.basePath ++ lit "study/notes").
  rewrite (prerender_filter_ignores_base (lit "study/notes") eq_refl).
  reflexivity.
Defined.

(** The second page of the matches for "fiqh", two per page. *)
Lemma search_results_are_matches_witness :
  exists es,
    fst (getSearchEntries' scoped (Some (lit "fiqh")) None start) = Ok es
    /\ forall v,
         In v [entryVideo (entry "f4" "Fiqh 3")] ->
         exists e, In e es /\ v = entryVideo e.
Proof.
  destruct (@search_results_are_matches payload payloadViews false [] lower
              scoped (lit "Fiqh")
              (Some (mkSearchOptions (Some (lit "fiqh")) None (Some 2%Z)
                                     (Some 2%Z)))
              start
              (mkVideoPage [entryVideo (entry "f4" "Fiqh 3")] 3 2 2 (Num 2)))
    as (es & Hes & Hall & _).
  - reflexivity.
  - vm_compute. reflexivity.
  - exists es. split; [exact Hes|]. intros v Hin.
    destruct (Hall v Hin) as (e & He & Hv & _). exists e. auto.
Defined.


End OnTheSampleSite.
